(** * comma.helpers: source resolution, line-terminator detection, multi-slicing

    A shallow embedding of [src/comma/helpers.py].  Python values are
    represented by the cases the code distinguishes with [type(..) is ..],
    [hasattr] and [is None]; exceptions are an explicit result type; the
    interpreter's libraries the code calls ([urllib.parse], [os.path],
    [requests], [zipfile], codecs) are the fields of a [World] record, so
    every theorem holds whatever the file system, the network and the archive
    reader answer. *)

From Stdlib Require Import Strings.String Strings.Ascii Strings.Byte.
From Stdlib Require Import List ZArith NArith Lia Bool.
Import ListNotations.

Open Scope string_scope.
Open Scope list_scope.

Set Implicit Arguments.

(** ** Text, bytes and exceptions *)

(** A Python [str] is a sequence of Unicode code points, [bytes] a sequence
    of octets. *)
Definition codepoint := N.
Definition text := list codepoint.
Definition bytes := list byte.

Definition txt (s : string) : text :=
  List.map N_of_ascii (String.list_ascii_of_string s).

Definition CR : codepoint := 13%N.
Definition LF : codepoint := 10%N.
Definition CRLF : text := [CR; LF].

Inductive AnyStr :=
| Str (t : text)
| Bytes (b : bytes).

(** What a [ValueError] carries: a literal message, or a template whose
    placeholder was filled by [str.format] with a list of names. *)
Inductive Detail :=
| Literal (msg : string)
| Format (template : string) (arg : list text).

Inductive Exn :=
| AttributeError
| TypeError
| ValueError (detail : Detail)
| LookupError
| OSError
| InvalidSchema
| ConnectionError
| OtherException (cls : string).

Inductive result (A : Type) :=
| Ok (a : A)
| Raise (e : Exn).
Arguments Ok {A} a.
Arguments Raise {A} e.

Definition bind {A B} (r : result A) (k : A -> result B) : result B :=
  match r with
  | Ok a => k a
  | Raise e => Raise e
  end.

Notation "x <- r ;; k" := (bind r (fun x => k))
  (at level 61, r at next level, right associativity).
Notation "' pat <- r ;; k" := (bind r (fun x => match x with pat => k end))
  (at level 61, pat pattern, r at next level, right associativity).

(** ** String primitives: [in], [str.count], comparison *)

Fixpoint is_prefix (sub s : text) : bool :=
  match sub, s with
  | [], _ => true
  | _ :: _, [] => false
  | a :: sub', b :: s' => N.eqb a b && is_prefix sub' s'
  end.

(** [sub in s] *)
Fixpoint str_contains (sub s : text) : bool :=
  is_prefix sub s ||
  match s with
  | [] => false
  | _ :: s' => str_contains sub s'
  end.

(** Left-to-right scan for non-overlapping occurrences; [skip] is how many
    characters of the last match are still to be stepped over. *)
Fixpoint count_scan (sub : text) (skip : nat) (s : text) : nat :=
  match s with
  | [] => 0
  | _ :: s' =>
      match skip with
      | S k => count_scan sub k s'
      | O =>
          if is_prefix sub s
          then S (count_scan sub (pred (length sub)) s')
          else count_scan sub 0 s'
      end
  end.

(** [s.count(sub)] for [str] *)
Definition str_count (s sub : text) : Z :=
  match sub with
  | [] => Z.of_nat (S (length s))
  | _ :: _ => Z.of_nat (count_scan sub 0 s)
  end.

Definition len (t : text) : Z := Z.of_nat (length t).

Fixpoint text_compare (a b : text) : comparison :=
  match a, b with
  | [], [] => Eq
  | [], _ :: _ => Lt
  | _ :: _, [] => Gt
  | x :: a', y :: b' =>
      match N.compare x y with
      | Eq => text_compare a' b'
      | c => c
      end
  end.

(** ** [sorted(..., reverse=True)] on (count, length, terminator) triples *)

Definition option3 := (Z * Z * text)%type.

Definition tuple_compare (p q : option3) : comparison :=
  let '(c1, l1, t1) := p in
  let '(c2, l2, t2) := q in
  match Z.compare c1 c2 with
  | Eq => match Z.compare l1 l2 with
          | Eq => text_compare t1 t2
          | c => c
          end
  | c => c
  end.

(** Stable insertion into a descending list: [x] comes from the left of
    everything already placed, so it stays in front of its equals. *)
Fixpoint insert_desc (x : option3) (l : list option3) : list option3 :=
  match l with
  | [] => [x]
  | y :: l' =>
      match tuple_compare x y with
      | Lt => y :: insert_desc x l'
      | _ => x :: l
      end
  end.

Definition sorted_reverse (l : list option3) : list option3 :=
  fold_right insert_desc [] l.

Fixpoint zip3 (a b : list Z) (c : list text) : list option3 :=
  match a, b, c with
  | x :: a', y :: b', z :: c' => (x, y, z) :: zip3 a' b' c'
  | _, _, _ => []
  end.

(** ** [detect_line_terminator] *)

Definition LINE_TERMINATORS : list text := [CRLF; [CR]; [LF]].
Definition LINE_TERMINATOR_DEFAULT : AnyStr := Str [LF].

(** The [sample] argument: [None], a [str], a [bytes], or an object without
    a [count] attribute. *)
Inductive Sample :=
| sample_None
| sample_str (t : text)
| sample_bytes (b : bytes)
| sample_no_count.

(** The bound method [sample.count]: [bytes.count] refuses a [str]
    argument. *)
Definition sample_count (sample : Sample) (sub : text) : result Z :=
  match sample with
  | sample_str t => Ok (str_count t sub)
  | sample_bytes _ => Raise TypeError
  | sample_None | sample_no_count => Raise AttributeError
  end.

(** [map], forced from left to right by its consumer. *)
Fixpoint map_result {A B} (f : A -> result B) (l : list A) : result (list B) :=
  match l with
  | [] => Ok []
  | x :: l' =>
      y <- f x ;;
      ys <- map_result f l' ;;
      Ok (y :: ys)
  end.

Definition has_count (sample : Sample) : bool :=
  match sample with
  | sample_str _ | sample_bytes _ => true
  | sample_None | sample_no_count => false
  end.

Definition detect_line_terminator (sample : Sample) (default : option AnyStr)
  : result AnyStr :=
  let default := match default with
                 | None => LINE_TERMINATOR_DEFAULT
                 | Some d => d
                 end in
  if negb (has_count sample) then Ok default
  else
    cs <- map_result (sample_count sample) LINE_TERMINATORS ;;
    let ranked_options :=
      sorted_reverse
        (zip3 cs (List.map len LINE_TERMINATORS) LINE_TERMINATORS) in
    match ranked_options with
    | [] => Raise (OtherException "IndexError")
    | best_option :: _ =>
        let '(c, _, t) := best_option in
        if Z.eqb c 0 then Ok default else Ok (Str t)
    end.

(** ** [multislice_sequence] *)

(** [slice(start, stop, step)], each bound possibly [None]. *)
Record slice := mk_slice {
  slice_start : option Z;
  slice_stop : option Z;
  slice_step : option Z
}.

Definition slice2 (start stop : Z) : slice :=
  mk_slice (Some start) (Some stop) None.

(** [slice.indices(length)]: the bounds clipped to the sequence. *)
Definition slice_indices (sl : slice) (length : Z) : result (Z * Z * Z) :=
  let step := match slice_step sl with None => 1%Z | Some s => s end in
  if Z.eqb step 0 then Raise (ValueError (Literal "slice step cannot be zero"))
  else
    let lower := if Z.ltb step 0 then (-1)%Z else 0%Z in
    let upper := if Z.ltb step 0 then (length - 1)%Z else length in
    let clip (v : Z) :=
      if Z.ltb v 0 then Z.max (v + length) lower else Z.min v upper in
    let start := match slice_start sl with
                 | None => if Z.ltb step 0 then upper else lower
                 | Some v => clip v
                 end in
    let stop := match slice_stop sl with
                | None => if Z.ltb step 0 then lower else upper
                | Some v => clip v
                end in
    Ok (start, stop, step).

(** How many indices [range(start, stop, step)] runs through. *)
Definition range_length (start stop step : Z) : nat :=
  if Z.ltb step 0
  then if Z.ltb stop start
       then Z.to_nat ((start - stop - 1) / (- step) + 1) else 0
  else if Z.ltb start stop
       then Z.to_nat ((stop - start - 1) / step + 1) else 0.

Fixpoint pick {A} (l : list A) (i step : Z) (n : nat) : list A :=
  match n with
  | O => []
  | S n' =>
      match nth_error l (Z.to_nat i) with
      | Some x => x :: pick l (i + step) step n'
      | None => []
      end
  end.

(** [sequence.__getitem__(sl)] for a slice *)
Definition getitem {A} (sequence : list A) (sl : slice) : result (list A) :=
  '(start, stop, step) <- slice_indices sl (Z.of_nat (length sequence)) ;;
  Ok (pick sequence start step (range_length start stop step)).

Fixpoint apply_slices {A} (new_sequence : list A) (slice_list : list slice)
  : result (list A) :=
  match slice_list with
  | [] => Ok new_sequence
  | sl :: rest =>
      s <- getitem new_sequence sl ;;
      apply_slices s rest
  end.

Definition multislice_sequence {A} (sequence : list A)
  (slice_list : option (list slice)) : result (list A) :=
  match slice_list with
  | None => Ok sequence
  | Some l => apply_slices sequence l
  end.

(** ** The interpreter's libraries *)

(** [urllib.parse.ParseResult]; the code reads three of its six fields. *)
Record ParseResult := {
  url_scheme : text;
  url_netloc : text;
  url_path : text
}.

(** [requests.Response]: [.ok], [.encoding] (the declared charset, if any)
    and [.content]. *)
Record Response := {
  response_ok : bool;
  response_encoding : option text;
  response_content : bytes
}.

(** The [requests] module: [head] answers with the response's [ok] flag;
    either call may raise. *)
Record Requests := {
  requests_head : text -> result bool;
  requests_get : text -> result Response
}.

(** An open [zipfile.ZipFile]. *)
Record ZipFile := {
  zip_namelist : list text;
  zip_read : text -> result bytes
}.

Inductive Content :=
| CText (t : text)
| CBytes (b : bytes).

(** A stream object as the code observes it: what [read] yields, where the
    read position is, what [seekable()] answers, its [name] attribute and
    whether that attribute can be assigned. *)
Record RawStream := {
  content : Content;
  pos : N;
  seekable : bool;
  name : option text;
  name_writable : bool
}.

(** [io.TextIOWrapper(buffer, encoding)] decodes what its buffer holds from
    the buffer's position on; [cpos] counts the characters already read. *)
Inductive Stream :=
| Plain (r : RawStream)
| TextIOWrapper (buffer : RawStream) (encoding : option text) (cpos : N).

Record World := {
  urlparse : text -> result ParseResult;
  os_path_exists : text -> bool;
  os_path_expanduser : text -> text;
  os_path_abspath : text -> text;
  os_path_splitext : text -> text * text;
  (** [open(path, mode="rb")] *)
  io_open_rb : text -> result RawStream;
  (** [None] when the import of [requests] failed *)
  requests : option Requests;
  zipfile_is_zipfile : bytes -> bool;
  zipfile_ZipFile : bytes -> result ZipFile;
  codecs_lookup : text -> bool;
  codecs_decode : option text -> bytes -> result text;
  (** [comma.extras.detect_encoding], defined outside this module *)
  detect_encoding : bytes -> option text
}.

Definition MAX_SAMPLE_CHUNKSIZE : N := 10000.
Definition URI_SCHEME_LOCAL : text := txt "file".
Definition URI_SCHEMES_ACCEPTED : list text := [txt "http"; txt "https"].

Fixpoint text_eqb (a b : text) : bool :=
  match a, b with
  | [], [] => true
  | x :: a', y :: b' => N.eqb x y && text_eqb a' b'
  | _, _ => false
  end.

Definition text_in (t : text) (l : list text) : bool := existsb (text_eqb t) l.

(** [str.lower] on the ASCII letters; no code point outside them lowers to a
    character of [".csv"], the only string the result is compared with. *)
Definition lower (t : text) : text :=
  List.map (fun c => if (N.leb 65 c && N.leb c 90)%bool then (c + 32)%N else c) t.

(** ** Stream operations *)

Fixpoint take {A} (l : list A) (n : N) : list A :=
  match l with
  | [] => []
  | x :: l' => if N.eqb n 0 then [] else x :: take l' (N.pred n)
  end.

Fixpoint drop {A} (l : list A) (n : N) : list A :=
  match l with
  | [] => []
  | x :: l' => if N.eqb n 0 then l else drop l' (N.pred n)
  end.

Definition size {A} (l : list A) : N := N.of_nat (length l).

Definition set_pos (r : RawStream) (p : N) : RawStream :=
  {| content := content r; pos := p; seekable := seekable r;
     name := name r; name_writable := name_writable r |}.

Definition set_name (r : RawStream) (n : option text) : RawStream :=
  {| content := content r; pos := pos r; seekable := seekable r;
     name := n; name_writable := name_writable r |}.

Definition content_size (c : Content) : N :=
  match c with
  | CText t => size t
  | CBytes b => size b
  end.

(** [io.StringIO(initial_value, newline)]: the initial value goes through the
    stream's write path, which replaces every ["\n"] by [newline] when
    [newline] starts with ["\r"]; reading with a non-empty [newline]
    translates nothing. *)
Definition io_StringIO (initial_value : text) (newline : text) : RawStream :=
  let stored :=
    match newline with
    | c :: _ =>
        if N.eqb c CR
        then flat_map (fun ch => if N.eqb ch LF then newline else [ch])
                      initial_value
        else initial_value
    | [] => initial_value
    end in
  {| content := CText stored; pos := 0; seekable := true;
     name := None; name_writable := true |}.

Definition io_BytesIO (initial_bytes : bytes) : RawStream :=
  {| content := CBytes initial_bytes; pos := 0; seekable := true;
     name := None; name_writable := true |}.

Inductive BufferArg :=
| buffer_bytes (b : bytes)
| buffer_raw (r : RawStream).

(** [io.TextIOWrapper(buffer, encoding=encoding)]: the codec is looked up
    first, then the buffer is asked whether it is [readable()], a method
    a [bytes] object does not have. *)
Definition io_TextIOWrapper (w : World) (buffer : BufferArg)
  (encoding : option text) : result Stream :=
  let known := match encoding with
               | None => true
               | Some e => codecs_lookup w e
               end in
  if negb known then Raise LookupError
  else match buffer with
       | buffer_bytes _ => Raise AttributeError
       | buffer_raw r => Ok (TextIOWrapper r encoding 0)
       end.

Definition stream_seekable (s : Stream) : bool :=
  match s with
  | Plain r => seekable r
  | TextIOWrapper b _ _ => seekable b
  end.

(** [source.seek(0)] *)
Definition seek0 (s : Stream) : Stream :=
  match s with
  | Plain r => Plain (set_pos r 0)
  | TextIOWrapper b e _ => TextIOWrapper (set_pos b 0) e 0
  end.

(** The text a wrapper presents: its buffer's bytes from the buffer's
    position on, decoded. *)
Definition wrapped_text (w : World) (b : RawStream) (e : option text)
  : result text :=
  match content b with
  | CBytes bs => codecs_decode w e (drop bs (pos b))
  | CText _ => Raise TypeError
  end.

Definition upto {A} (n : option N) (l : list A) : list A :=
  match n with
  | None => l
  | Some k => take l k
  end.

(** [source.read(n)], [n = None] reading to the end: the data and the stream
    after the read. *)
Definition stream_read (w : World) (s : Stream) (n : option N)
  : result (Content * Stream) :=
  match s with
  | Plain r =>
      match content r with
      | CText t =>
          let data := upto n (drop t (pos r)) in
          Ok (CText data, Plain (set_pos r (pos r + size data)))
      | CBytes b =>
          let data := upto n (drop b (pos r)) in
          Ok (CBytes data, Plain (set_pos r (pos r + size data)))
      end
  | TextIOWrapper b e cp =>
      t <- wrapped_text w b e ;;
      let data := upto n (drop t cp) in
      Ok (CText data, TextIOWrapper b e (cp + size data))
  end.

(** What the caller gets from [stream.read()]. *)
Definition read_all (w : World) (s : Stream) : result Content :=
  '(data, _) <- stream_read w s None ;;
  Ok data.

(** The offset the caller would start reading from. *)
Definition read_position (s : Stream) : N :=
  match s with
  | Plain r => pos r
  | TextIOWrapper b _ cp => pos b + cp
  end.

(** ** [is_local] and [is_url] *)

(** Only [AttributeError] is handled around [urlparse]; any other exception
    it raises leaves the function. *)
Definition is_local (w : World) (location : option text)
  : result (option text) :=
  match location with
  | None => Ok None
  | Some location =>
      if text_eqb location [] then Ok None
      else
        match urlparse w location with
        | Raise AttributeError => Ok None
        | Raise e => Raise e
        | Ok parsed_location =>
            let path : option text := None in
            let path :=
              if text_in (url_scheme parsed_location) [URI_SCHEME_LOCAL; []]
              then
                let parsed_path := url_path parsed_location in
                let parsed_path :=
                  if negb (text_eqb (url_netloc parsed_location) [])
                  then url_netloc parsed_location ++ parsed_path
                  else parsed_path in
                let path :=
                  if os_path_exists w parsed_path
                  then Some parsed_path else path in
                if os_path_exists w (os_path_expanduser w parsed_path)
                then Some (os_path_expanduser w parsed_path) else path
              else path in
            let path :=
              if os_path_exists w location then Some location
              else if os_path_exists w (os_path_expanduser w location)
                   then Some (os_path_expanduser w location)
                   else path in
            match path with
            | Some p => Ok (Some (os_path_abspath w p))
            | None => Ok None
            end
        end
  end.

(** Every exception of [urlparse] is handled here; around the HEAD request
    the two handlers catch [InvalidSchema] and [ConnectionError] (the world
    reports an exception by the handler class it falls under). *)
Definition is_url (w : World) (location : option text) (no_request : bool)
  : result bool :=
  match location with
  | None => Ok false
  | Some location =>
      if text_eqb location [] then Ok false
      else
        match urlparse w location with
        | Raise _ => Ok false
        | Ok parsed_location =>
            if (text_eqb (url_scheme parsed_location) []
                || text_eqb (url_netloc parsed_location) [])%bool
            then Ok false
            else if text_eqb (url_scheme parsed_location) URI_SCHEME_LOCAL
            then Ok false
            else
              match (if no_request then None else requests w) with
              | None =>
                  Ok (text_in (url_scheme parsed_location) URI_SCHEMES_ACCEPTED)
              | Some rq =>
                  match requests_head rq location with
                  | Raise InvalidSchema => Ok false
                  | Raise ConnectionError => Ok false
                  | Raise e => Raise e
                  | Ok response_ok => Ok response_ok
                  end
              end
        end
  end.

(** ** [open_stream] *)

Inductive Source :=
| source_None
| source_str (s : text)
| source_bytes (b : bytes)
| source_stream (st : Stream)
| source_object.

(** Lines 315-324: a stream that is not seekable is read to the end and
    replaced by an in-memory one. *)
Definition make_seekable (w : World) (source : Stream) : result Stream :=
  if stream_seekable source then Ok source
  else
    '(data, _) <- stream_read w source None ;;
    match data with
    | CText t => Ok (Plain (io_StringIO t [LF]))
    | CBytes b => Ok (Plain (io_BytesIO b))
    end.

(** [zipfile.is_zipfile(source)]: the end-of-archive record is looked for
    with end-relative seeks, which text streams refuse. *)
Definition is_zipfile (w : World) (source : Stream) : option bytes :=
  match source with
  | Plain r =>
      match content r with
      | CBytes b => if zipfile_is_zipfile w b then Some b else None
      | CText _ => None
      end
  | TextIOWrapper _ _ _ => None
  end.

Definition is_csv (w : World) (name : text) : bool :=
  text_eqb (lower (snd (os_path_splitext w name))) (txt ".csv").

(** The loop over [names]: [(count_total, count_csv, csv_filename)]. *)
Definition count_names (w : World) (names : list text)
  : Z * Z * option text :=
  fold_left
    (fun st name =>
       let '(count_total, count_csv, csv_filename) := st in
       if is_csv w name
       then (count_total + 1, count_csv + 1, Some name)%Z
       else (count_total + 1, count_csv, csv_filename)%Z)
    names (0%Z, 0%Z, None).

Definition EMPTY_ZIP : string :=
  "it seems the provided source is ZIP compressed; but there are unknown issues unzipping it (or the archive is empty)".

Definition AMBIGUOUS_ZIP : string :=
  "provided ZIP source is ambiguous, contains multiple files: {}".

(** Lines 327-363. *)
Definition unzip (w : World) (source : Stream) : result Stream :=
  match is_zipfile w source with
  | None => Ok source
  | Some archive =>
      zipsource <- zipfile_ZipFile w archive ;;
      let names := zip_namelist zipsource in
      let '(count_total, count_csv, csv_filename) := count_names w names in
      if Z.eqb count_total 1 then
        match names with
        | first :: _ =>
            data <- zip_read zipsource first ;;
            Ok (Plain (io_BytesIO data))
        | [] => Raise (OtherException "IndexError")
        end
      else if (Z.ltb 1 count_total && Z.eqb count_csv 1)%bool then
        match csv_filename with
        | Some n =>
            data <- zip_read zipsource n ;;
            Ok (Plain (io_BytesIO data))
        | None => Raise (OtherException "KeyError")
        end
      else if Z.eqb count_total 0 then
        Raise (ValueError (Literal EMPTY_ZIP))
      else
        Raise (ValueError (Format AMBIGUOUS_ZIP names))
  end.

(** [source.buffer.name = internal_name] inside [try ... except
    AttributeError: pass]: only a wrapper has a [buffer]. *)
Definition set_buffer_name (source : Stream) (internal_name : option text)
  : Stream :=
  match internal_name with
  | None => source
  | Some _ =>
      match source with
      | TextIOWrapper b e cp =>
          if name_writable b
          then TextIOWrapper (set_name b internal_name) e cp
          else source
      | Plain _ => source
      end
  end.

(** Lines 369-386: sample the stream from its start and wrap a binary one
    as text. *)
Definition sample_and_wrap (w : World) (source : Stream)
  (encoding : option text) (internal_name : option text) : result Stream :=
  let source := seek0 source in
  '(sample, source) <- stream_read w source (Some MAX_SAMPLE_CHUNKSIZE) ;;
  source <-
    match sample, source with
    | CBytes smp, Plain r =>
        let encoding :=
          match encoding with
          | None => detect_encoding w smp
          | Some _ => encoding
          end in
        io_TextIOWrapper w (buffer_raw r) encoding
    | _, _ => Ok source
    end ;;
  Ok (set_buffer_name source internal_name).

(** Lines 311-386, for a [source] that is a stream. *)
Definition resolve_stream (w : World) (source : Stream)
  (encoding : option text) (internal_name : option text)
  : result (option Stream) :=
  source <- make_seekable w source ;;
  source <- unzip w source ;;
  source <- sample_and_wrap w source encoding internal_name ;;
  Ok (Some source).

Definition open_stream (w : World) (source : Source)
  (encoding : option text) (no_request : bool) : result (option Stream) :=
  match source with
  | source_None => Ok None
  | source_str s =>
      if str_contains [LF] s then
        let newline := if str_contains CRLF s then CRLF else [LF] in
        Ok (Some (Plain (io_StringIO s newline)))
      else
        let internal_name := Some s in
        local_path <- is_local w (Some s) ;;
        match local_path with
        | Some p =>
            f <- io_open_rb w p ;;
            resolve_stream w (Plain f) encoding internal_name
        | None =>
            is_remote <-
              (if no_request then Ok false else is_url w (Some s) false) ;;
            if is_remote then
              match requests w with
              | None => Raise AttributeError
              | Some rq =>
                  response <- requests_get rq s ;;
                  if negb (response_ok response) then Ok None
                  else
                    let encoding :=
                      match encoding with
                      | None => response_encoding response
                      | Some _ => encoding
                      end in
                    source <-
                      match encoding with
                      | Some _ =>
                          io_TextIOWrapper w
                            (buffer_bytes (response_content response)) encoding
                      | None =>
                          Ok (Plain (io_BytesIO (response_content response)))
                      end ;;
                    resolve_stream w source encoding internal_name
              end
            else Ok None
        end
  | source_bytes b => resolve_stream w (Plain (io_BytesIO b)) encoding None
  | source_stream st => resolve_stream w st encoding None
  | source_object => Ok None
  end.

(** ** Samples and auxiliary definitions of the statements *)

(** A sample made of [n] copies of ["\r\n"] and nothing else. *)
Definition crlf_run (n : nat) : text := concat (repeat CRLF n).

(** The sample "a\rb\n". *)
Definition a_cr_b_lf : text := [97%N; CR; 98%N; LF].

Definition csv_names (w : World) (names : list text) : list text :=
  filter (is_csv w) names.

(** The member names a fault's detail was formatted with. *)
Definition detail_names (e : Exn) : list text :=
  match e with
  | ValueError (Format _ names) => names
  | _ => []
  end.

(** ** A concrete world

    One instance of [World], with POSIX paths, for running the code on
    concrete sources. *)

Definition bts (s : string) : bytes := list_byte_of_string s.

Fixpoint bytes_eqb (a b : bytes) : bool :=
  match a, b with
  | [], [] => true
  | x :: a', y :: b' => Byte.eqb x y && bytes_eqb a' b'
  | _, _ => false
  end.

(** [str.rfind] of one character: the last index, or -1. *)
Fixpoint rfind_from (c : codepoint) (p : text) (i found : Z) : Z :=
  match p with
  | [] => found
  | x :: p' => rfind_from c p' (i + 1)%Z (if N.eqb x c then i else found)
  end.

Definition rfind (c : codepoint) (p : text) : Z := rfind_from c p 0%Z (-1)%Z.

(** [posixpath.splitext]: the extension starts at the last dot of the last
    path component, leading dots of the component not counting. *)
Definition posix_splitext (p : text) : text * text :=
  let sepIndex := rfind 47%N p in
  let dotIndex := rfind 46%N p in
  let stem := take (drop p (Z.to_N (sepIndex + 1))) (Z.to_N (dotIndex - sepIndex - 1)) in
  if (Z.ltb sepIndex dotIndex
      && existsb (fun x => negb (N.eqb x 46%N)) stem)%bool
  then (take p (Z.to_N dotIndex), drop p (Z.to_N dotIndex))
  else (p, []).

Definition plain_path (location : text) : ParseResult :=
  {| url_scheme := []; url_netloc := []; url_path := location |}.

(** The CSV text ["a,b\n1,2\n"] as bytes. *)
Definition csv_bytes : bytes := bts "a,b" ++ [x0a] ++ bts "1,2" ++ [x0a].

(** A path with a double slash and an opening bracket, ["//[x"], on which
    [urlparse] raises [ValueError("Invalid IPv6 URL")]. *)
Definition bracket_path : text := txt "//[x".

Definition data_url : text := txt "http://example.org/data.csv".

Definition two_member_zip : bytes := bts "PK-two-members".
Definition one_member_zip : bytes := bts "PK-one-member".

Definition demo_urlparse (location : text) : result ParseResult :=
  if text_eqb location bracket_path
  then Raise (ValueError (Literal "Invalid IPv6 URL"))
  else if text_eqb location data_url
  then Ok {| url_scheme := txt "http"; url_netloc := txt "example.org";
             url_path := txt "/data.csv" |}
  else Ok (plain_path location).

Definition demo_requests : Requests :=
  {| requests_head := fun _ => Ok true;
     requests_get := fun _ =>
       Ok {| response_ok := true;
             response_encoding := Some (txt "utf-8");
             response_content := csv_bytes |} |}.

Definition demo_ZipFile (archive : bytes) : result ZipFile :=
  if bytes_eqb archive two_member_zip
  then Ok {| zip_namelist := [txt "notes.txt"; txt "table.tsv"];
             zip_read := fun _ => Ok csv_bytes |}
  else if bytes_eqb archive one_member_zip
  then Ok {| zip_namelist := [txt "payload.bin"];
             zip_read := fun _ => Ok csv_bytes |}
  else Raise (OtherException "BadZipFile").

(** Nothing exists on disk, [requests] is installed and every fetch
    succeeds, two byte strings are archives, text is ASCII. *)
Definition demo_world : World :=
  {| urlparse := demo_urlparse;
     os_path_exists := fun _ => false;
     os_path_expanduser := fun p => p;
     os_path_abspath := fun p => p;
     os_path_splitext := posix_splitext;
     io_open_rb := fun _ => Raise OSError;
     requests := Some demo_requests;
     zipfile_is_zipfile := fun b =>
       (bytes_eqb b two_member_zip || bytes_eqb b one_member_zip)%bool;
     zipfile_ZipFile := demo_ZipFile;
     codecs_lookup := fun e => text_in e [txt "utf-8"; txt "latin-1"];
     codecs_decode := fun _ b => Ok (List.map Byte.to_N b);
     detect_encoding := fun _ => Some (txt "utf-8") |}.

Definition to_crlf (ch : codepoint) : text :=
  if N.eqb ch LF then CRLF else [ch].

(** The literal ["a\r\nb"]. *)
Definition a_crlf_b : text := [97%N; CR; LF; 98%N].

(** ** [comment_stripper] *)

(** The code points [str.strip()] removes when called without argument. *)
Definition is_space (c : codepoint) : bool :=
  ((N.leb 9 c && N.leb c 13) || (N.leb 28 c && N.leb c 32)
   || N.eqb c 133 || N.eqb c 160 || N.eqb c 5760
   || (N.leb 8192 c && N.leb c 8202)
   || N.eqb c 8232 || N.eqb c 8233 || N.eqb c 8239 || N.eqb c 8287
   || N.eqb c 12288)%bool.

Fixpoint lstrip (l : text) : text :=
  match l with
  | [] => []
  | c :: l' => if is_space c then lstrip l' else l
  end.

Fixpoint rstrip (l : text) : text :=
  match l with
  | [] => []
  | c :: l' =>
      match rstrip l' with
      | [] => if is_space c then [] else [c]
      | r => c :: r
      end
  end.

(** [line.strip()] *)
Definition strip (l : text) : text := rstrip (lstrip l).

Definition COMMENT_LINE_CHARS : text := txt "#;".

(** The lines the generator yields, in order; [lines] is what
    [stream.readlines()] returned. *)
Fixpoint comment_stripper (lines : list text) (comment_line_chars : text)
  : list text :=
  match lines with
  | [] => []
  | line :: rest =>
      let stripped_line := strip line in
      match stripped_line with
      | [] => comment_stripper rest comment_line_chars
      | _ :: _ =>
          if str_contains (firstn 1 stripped_line) comment_line_chars
          then comment_stripper rest comment_line_chars
          else line :: comment_stripper rest comment_line_chars
      end
  end.

(** ** Further auxiliary definitions of the statements *)

(** The value [detect_line_terminator] falls back to. *)
Definition default_of (default : option AnyStr) : AnyStr :=
  match default with
  | None => LINE_TERMINATOR_DEFAULT
  | Some d => d
  end.

(** Lines, each followed by the terminator [term]. *)
Definition terminated (term : text) (lines : list text) : text :=
  concat (List.map (fun line => line ++ term) lines).

(** A line without any carriage return or line feed. *)
Definition plain_line (line : text) : Prop :=
  ~ In CR line /\ ~ In LF line.

(** The same world with another [requests] module. *)
Definition set_requests (w : World) (rq : option Requests) : World :=
  {| urlparse := urlparse w;
     os_path_exists := os_path_exists w;
     os_path_expanduser := os_path_expanduser w;
     os_path_abspath := os_path_abspath w;
     os_path_splitext := os_path_splitext w;
     io_open_rb := io_open_rb w;
     requests := rq;
     zipfile_is_zipfile := zipfile_is_zipfile w;
     zipfile_ZipFile := zipfile_ZipFile w;
     codecs_lookup := codecs_lookup w;
     codecs_decode := codecs_decode w;
     detect_encoding := detect_encoding w |}.

(** A stream whose [read] yields [str]. *)
Definition is_text_stream (s : Stream) : bool :=
  match s with
  | Plain r => match content r with CText _ => true | CBytes _ => false end
  | TextIOWrapper _ _ _ => true
  end.

(** How often the character [c] occurs in [t]. *)
Definition occurrences (c : codepoint) (t : text) : nat :=
  length (filter (N.eqb c) t).

(** The first character of a line that [str.strip()] would keep. *)
Fixpoint first_visible (line : text) : option codepoint :=
  match line with
  | [] => None
  | c :: line' => if is_space c then first_visible line' else Some c
  end.

(** ** A second world

    One file exists, [/home/u/data.csv]; [~] expands to [/home/u];
    [requests] is not installed. *)

Definition home_file : text := txt "/home/u/data.csv".
Definition home_file_uri : text := txt "file:///home/u/data.csv".
Definition home_http_url : text := txt "http://example.org/home/u/data.csv".

Definition home_urlparse (location : text) : result ParseResult :=
  if text_eqb location home_file_uri
  then Ok {| url_scheme := txt "file"; url_netloc := []; url_path := home_file |}
  else if text_eqb location home_http_url
  then Ok {| url_scheme := txt "http"; url_netloc := txt "example.org";
             url_path := home_file |}
  else Ok (plain_path location).

Definition home_expanduser (p : text) : text :=
  match p with
  | 126%N :: rest => txt "/home/u" ++ rest
  | _ => p
  end.

Definition home_world : World :=
  {| urlparse := home_urlparse;
     os_path_exists := text_eqb home_file;
     os_path_expanduser := home_expanduser;
     os_path_abspath := fun p => p;
     os_path_splitext := posix_splitext;
     io_open_rb := fun p =>
       if text_eqb p home_file
       then Ok {| content := CBytes csv_bytes; pos := 0; seekable := true;
                  name := Some p; name_writable := false |}
       else Raise OSError;
     requests := None;
     zipfile_is_zipfile := fun _ => false;
     zipfile_ZipFile := fun _ => Raise (OtherException "BadZipFile");
     codecs_lookup := fun e => text_in e [txt "utf-8"; txt "latin-1"];
     codecs_decode := fun _ b => Ok (List.map Byte.to_N b);
     detect_encoding := fun _ => Some (txt "utf-8") |}.

(** The same world in which every byte string is an archive that opens
    as [z]. *)
Definition archive_world (w : World) (z : ZipFile) : World :=
  {| urlparse := urlparse w;
     os_path_exists := os_path_exists w;
     os_path_expanduser := os_path_expanduser w;
     os_path_abspath := os_path_abspath w;
     os_path_splitext := os_path_splitext w;
     io_open_rb := io_open_rb w;
     requests := requests w;
     zipfile_is_zipfile := fun _ => true;
     zipfile_ZipFile := fun _ => Ok z;
     codecs_lookup := codecs_lookup w;
     codecs_decode := codecs_decode w;
     detect_encoding := detect_encoding w |}.



(** Whether the generator yields a line: it has a first character that is
    not white space, and that character is not a comment character. *)
Definition is_content_line (comment_line_chars : text) (line : text) : bool :=
  match first_visible line with
  | Some c => negb (existsb (N.eqb c) comment_line_chars)
  | None => false
  end.

(** * Properties *)

(** ** Line-terminator detection *)

(** For a [str] sample the triples handed to [sorted] are these three. *)
Lemma detect_str_unfold (t : text) (default : option AnyStr) :
  detect_line_terminator (sample_str t) default =
  match sorted_reverse [(str_count t CRLF, 2%Z, CRLF);
                        (str_count t [CR], 1%Z, [CR]);
                        (str_count t [LF], 1%Z, [LF])] with
  | [] => Raise (OtherException "IndexError")
  | (c, _, term) :: _ =>
      if Z.eqb c 0
      then Ok match default with
              | None => LINE_TERMINATOR_DEFAULT
              | Some d => d
              end
      else Ok (Str term)
  end.
Proof. reflexivity. Qed.

Ltac split_compares :=
  repeat match goal with
         | |- context [Z.compare ?a ?b] =>
             destruct (Z.compare_spec a b); cbn
         end.

(** The head of the ranking, by cases on the three counts. *)
Lemma ranked_head (n_crlf n_cr n_lf : Z) :
  exists rest,
    sorted_reverse [(n_crlf, 2%Z, CRLF); (n_cr, 1%Z, [CR]); (n_lf, 1%Z, [LF])]
    = (if Z.ltb n_cr n_lf
       then if Z.ltb n_crlf n_lf then (n_lf, 1%Z, [LF]) else (n_crlf, 2%Z, CRLF)
       else if Z.ltb n_crlf n_cr then (n_cr, 1%Z, [CR]) else (n_crlf, 2%Z, CRLF))
      :: rest.
Proof.
  unfold sorted_reverse. cbn.
  destruct (Z.ltb_spec n_cr n_lf); destruct (Z.ltb_spec n_crlf n_lf);
    destruct (Z.ltb_spec n_crlf n_cr);
    split_compares; try lia; eexists; reflexivity.
Qed.

Lemma count_scan_crlf_run (n : nat) :
  count_scan CRLF 0 (crlf_run n) = n
  /\ count_scan [CR] 0 (crlf_run n) = n
  /\ count_scan [LF] 0 (crlf_run n) = n.
Proof.
  induction n as [| n (IH1 & IH2 & IH3)]; [repeat split |].
  unfold crlf_run in *. cbn.
  rewrite IH1, IH2, IH3. repeat split.
Qed.

Lemma str_count_crlf_run (n : nat) :
  str_count (crlf_run n) CRLF = Z.of_nat n
  /\ str_count (crlf_run n) [CR] = Z.of_nat n
  /\ str_count (crlf_run n) [LF] = Z.of_nat n.
Proof.
  destruct (count_scan_crlf_run n) as (H1 & H2 & H3).
  change (str_count (crlf_run n) CRLF)
    with (Z.of_nat (count_scan CRLF 0 (crlf_run n))).
  change (str_count (crlf_run n) [CR])
    with (Z.of_nat (count_scan [CR] 0 (crlf_run n))).
  change (str_count (crlf_run n) [LF])
    with (Z.of_nat (count_scan [LF] 0 (crlf_run n))).
  rewrite H1, H2, H3. repeat split.
Qed.

(** Whenever ["\r\n"] occurs and neither single character was counted more
    often than it, the two-character terminator is ranked first. *)
Lemma detect_crlf_dominant (t : text) (default : option AnyStr) :
  (0 < str_count t CRLF)%Z ->
  (str_count t [CR] <= str_count t CRLF)%Z ->
  (str_count t [LF] <= str_count t CRLF)%Z ->
  detect_line_terminator (sample_str t) default = Ok (Str CRLF).
Proof.
  intros Hpos Hcr Hlf.
  rewrite detect_str_unfold.
  destruct (ranked_head (str_count t CRLF) (str_count t [CR]) (str_count t [LF]))
    as [rest ->].
  destruct (Z.ltb_spec (str_count t [CR]) (str_count t [LF]));
    [ destruct (Z.ltb_spec (str_count t CRLF) (str_count t [LF]))
    | destruct (Z.ltb_spec (str_count t CRLF) (str_count t [CR])) ];
    try lia;
    destruct (Z.eqb_spec (str_count t CRLF) 0); try lia; reflexivity.
Qed.

(** C3: a sample consisting of N > 0 occurrences of "\r\n" and nothing else
    is detected as "\r\n", whatever default the caller passed: the three
    counts are all N, and the pattern length puts the two-character
    terminator above its own substrings "\r" and "\n". *)
Theorem detect_crlf_only (n : nat) (default : option AnyStr) :
  0 < n ->
  detect_line_terminator (sample_str (crlf_run n)) default = Ok (Str CRLF)
  /\ str_count (crlf_run n) [CR] = str_count (crlf_run n) CRLF
  /\ str_count (crlf_run n) [LF] = str_count (crlf_run n) CRLF.
Proof.
  intros Hn.
  destruct (str_count_crlf_run n) as (H1 & H2 & H3).
  split; [| rewrite H1, H2, H3; split; reflexivity].
  apply detect_crlf_dominant; rewrite ?H1, ?H2, ?H3; lia.
Qed.

Lemma detect_crlf_only_witness :
  0 < 3 /\
  detect_line_terminator (sample_str (crlf_run 3)) None = Ok (Str CRLF).
Proof.
  split; [lia | apply (detect_crlf_only (n := 3) None); lia].
Defined.

(** C10: with no "\r\n" in the sample and equal positive counts of "\r" and
    "\n", the triples of the two one-character candidates differ only in
    the terminator itself, "\r" compares above "\n", and "\r" is returned. *)
Theorem detect_cr_lf_tie (t : text) (default : option AnyStr) :
  str_count t CRLF = 0%Z ->
  str_count t [CR] = str_count t [LF] ->
  (0 < str_count t [CR])%Z ->
  detect_line_terminator (sample_str t) default = Ok (Str [CR])
  /\ tuple_compare (str_count t [CR], len [CR], [CR])
                   (str_count t [LF], len [LF], [LF]) = Gt.
Proof.
  intros H0 Heq Hpos. split.
  - rewrite detect_str_unfold.
    destruct (ranked_head (str_count t CRLF) (str_count t [CR]) (str_count t [LF]))
      as [rest ->].
    rewrite H0, <- Heq, Z.ltb_irrefl.
    destruct (Z.ltb_spec 0 (str_count t [CR])); try lia.
    destruct (Z.eqb_spec (str_count t [CR]) 0); try lia. reflexivity.
  - unfold tuple_compare. rewrite <- Heq, Z.compare_refl. reflexivity.
Qed.

Lemma detect_cr_lf_tie_witness :
  detect_line_terminator (sample_str a_cr_b_lf) None = Ok (Str [CR])
  /\ tuple_compare (str_count a_cr_b_lf [CR], len [CR], [CR])
                   (str_count a_cr_b_lf [LF], len [LF], [LF]) = Gt.
Proof.
  apply (detect_cr_lf_tie a_cr_b_lf None); [reflexivity | reflexivity | reflexivity].
Defined.

(** C4: on a [bytes] sample the detector does not return "\n", "\r" or
    "\r\n": the sample has a [count] method, so the early return is not
    taken, and the first call [sample.count("\r\n")] raises [TypeError],
    whatever the bytes are. *)
Theorem detect_bytes_raises (b : bytes) (default : option AnyStr) :
  detect_line_terminator (sample_bytes b) default = Raise TypeError.
Proof. reflexivity. Qed.

(** ** Multi-slicing *)

(** C9: without a slice list, or with an empty one, the sequence comes back
    unchanged; a non-empty list applies its first slice and then the rest to
    what that slice returned; and [slice(0,3)] then [slice(1,2)] on
    [0,1,2,3,4,5] gives [1], the same as [slice(1,2)] on [0,1,2]. *)
Theorem multislice_sequence_spec :
  (forall (A : Type) (sequence : list A),
      multislice_sequence sequence None = Ok sequence)
  /\ (forall (A : Type) (sequence : list A),
         multislice_sequence sequence (Some []) = Ok sequence)
  /\ (forall (A : Type) (sequence : list A) (sl : slice) (rest : list slice),
         multislice_sequence sequence (Some (sl :: rest)) =
         (s <- getitem sequence sl ;; multislice_sequence s (Some rest)))
  /\ multislice_sequence [0; 1; 2; 3; 4; 5]%Z (Some [slice2 0 3; slice2 1 2])
     = Ok [1%Z]
  /\ getitem [0; 1; 2; 3; 4; 5]%Z (slice2 0 3) = Ok [0; 1; 2]%Z
  /\ getitem [0; 1; 2]%Z (slice2 1 2) = Ok [1%Z].
Proof.
  repeat split; reflexivity.
Qed.

(** ** Archives *)

Lemma count_names_from (w : World) (names : list text)
  (ct cc : Z) (fn : option text) :
  exists fn',
    fold_left
      (fun st name =>
         let '(count_total, count_csv, csv_filename) := st in
         if is_csv w name
         then (count_total + 1, count_csv + 1, Some name)%Z
         else (count_total + 1, count_csv, csv_filename)%Z)
      names (ct, cc, fn)
    = ((ct + Z.of_nat (length names))%Z,
       (cc + Z.of_nat (length (csv_names w names)))%Z, fn').
Proof.
  revert ct cc fn.
  induction names as [| name names IH]; intros ct cc fn.
  - exists fn. cbn.
    apply (f_equal2 pair); [apply (f_equal2 pair); lia | reflexivity].
  - cbn [fold_left csv_names filter].
    destruct (is_csv w name).
    + destruct (IH (ct + 1)%Z (cc + 1)%Z (Some name)) as [fn' ->].
      exists fn'. unfold csv_names. cbn [length].
      apply (f_equal2 pair); [apply (f_equal2 pair); lia | reflexivity].
    + destruct (IH (ct + 1)%Z cc fn) as [fn' ->].
      exists fn'. unfold csv_names. cbn [length].
      apply (f_equal2 pair); [apply (f_equal2 pair); lia | reflexivity].
Qed.

(** After the loop, [count_total] is the number of members and [count_csv]
    the number of those with a [.csv] extension. *)
Lemma count_names_spec (w : World) (names : list text) :
  exists fn,
    count_names w names
    = (Z.of_nat (length names), Z.of_nat (length (csv_names w names)), fn).
Proof.
  destruct (count_names_from w names 0 0 None) as [fn H].
  exists fn. unfold count_names. rewrite H. reflexivity.
Qed.

Lemma unzip_ambiguous (w : World) (source : Stream) (archive : bytes)
  (zipsource : ZipFile) :
  is_zipfile w source = Some archive ->
  zipfile_ZipFile w archive = Ok zipsource ->
  1 < length (zip_namelist zipsource) ->
  length (csv_names w (zip_namelist zipsource)) <> 1 ->
  unzip w source
  = Raise (ValueError (Format AMBIGUOUS_ZIP (zip_namelist zipsource))).
Proof.
  intros Hz Ho Hn Hc. unfold unzip. rewrite Hz, Ho. cbn [bind].
  destruct (count_names_spec w (zip_namelist zipsource)) as [fn ->].
  destruct (Z.eqb_spec (Z.of_nat (length (zip_namelist zipsource))) 1);
    [lia |].
  destruct (Z.eqb_spec
              (Z.of_nat (length (csv_names w (zip_namelist zipsource)))) 1);
    [lia |].
  rewrite andb_false_r.
  destruct (Z.eqb_spec (Z.of_nat (length (zip_namelist zipsource))) 0);
    [lia | reflexivity].
Qed.

Lemma unzip_single (w : World) (source : Stream) (archive : bytes)
  (zipsource : ZipFile) (member : text) (data : bytes) :
  is_zipfile w source = Some archive ->
  zipfile_ZipFile w archive = Ok zipsource ->
  zip_namelist zipsource = [member] ->
  zip_read zipsource member = Ok data ->
  unzip w source = Ok (Plain (io_BytesIO data)).
Proof.
  intros Hz Ho Hn Hr. unfold unzip. rewrite Hz, Ho. cbn [bind].
  destruct (count_names_spec w (zip_namelist zipsource)) as [fn ->].
  rewrite Hn. cbn [length Z.of_nat Pos.of_succ_nat Z.eqb Pos.eqb].
  rewrite Hr. reflexivity.
Qed.

(** ** Extensions of member names *)

Example splitext_examples :
  posix_splitext (txt "a/.b.CSV") = (txt "a/.b", txt ".CSV")
  /\ posix_splitext (txt ".csv") = (txt ".csv", [])
  /\ posix_splitext (txt "a.b/c") = (txt "a.b/c", [])
  /\ is_csv demo_world (txt "Table.CsV") = true
  /\ is_csv demo_world (txt "table.tsv") = false.
Proof. repeat split; reflexivity. Qed.

(** ** Resolution of archives *)

Lemma open_stream_of_stream (w : World) (st : Stream)
  (encoding : option text) (no_request : bool) :
  open_stream w (source_stream st) encoding no_request
  = resolve_stream w st encoding None.
Proof. reflexivity. Qed.

Lemma open_stream_of_bytes (w : World) (b : bytes)
  (encoding : option text) (no_request : bool) :
  open_stream w (source_bytes b) encoding no_request
  = resolve_stream w (Plain (io_BytesIO b)) encoding None.
Proof. reflexivity. Qed.

(** C5: when the stream handed to the archive step is detected as an
    archive whose member list has more than one name, of which zero or more
    than one end in ".csv" (case-insensitively), resolution raises a
    [ValueError] instead of returning a stream or [None], and the fault's
    detail is formatted with the complete member list. *)
Theorem ambiguous_archive_raises (w : World) (st source : Stream)
  (archive : bytes) (zipsource : ZipFile)
  (encoding internal_name : option text) (no_request : bool) :
  make_seekable w st = Ok source ->
  is_zipfile w source = Some archive ->
  zipfile_ZipFile w archive = Ok zipsource ->
  1 < length (zip_namelist zipsource) ->
  length (csv_names w (zip_namelist zipsource)) <> 1 ->
  exists fault,
    resolve_stream w st encoding internal_name = Raise fault
    /\ open_stream w (source_stream st) encoding no_request = Raise fault
    /\ (forall b, st = Plain (io_BytesIO b) ->
                  open_stream w (source_bytes b) encoding no_request
                  = Raise fault)
    /\ fault = ValueError (Format AMBIGUOUS_ZIP (zip_namelist zipsource))
    /\ forall member, In member (zip_namelist zipsource) ->
                      In member (detail_names fault).
Proof.
  intros Hs Hz Ho Hn Hc.
  exists (ValueError (Format AMBIGUOUS_ZIP (zip_namelist zipsource))).
  assert (Hr : forall name,
             resolve_stream w st encoding name
             = Raise (ValueError (Format AMBIGUOUS_ZIP (zip_namelist zipsource)))).
  { intros name. unfold resolve_stream. rewrite Hs. cbn [bind].
    rewrite (unzip_ambiguous w source Hz Ho Hn Hc). reflexivity. }
  repeat split.
  - apply Hr.
  - rewrite open_stream_of_stream. apply Hr.
  - intros b ->. rewrite open_stream_of_bytes. apply Hr.
  - intros member Hin. exact Hin.
Qed.

Lemma ambiguous_archive_raises_witness :
  open_stream demo_world (source_stream (Plain (io_BytesIO two_member_zip)))
    None false
  = Raise (ValueError (Format AMBIGUOUS_ZIP [txt "notes.txt"; txt "table.tsv"])).
Proof.
  destruct (@ambiguous_archive_raises demo_world
              (Plain (io_BytesIO two_member_zip))
              (Plain (io_BytesIO two_member_zip))
              two_member_zip
              {| zip_namelist := [txt "notes.txt"; txt "table.tsv"];
                 zip_read := fun _ => Ok csv_bytes |}
              None None false)
    as (fault & _ & Hopen & _ & Hfault & _).
  - reflexivity.
  - reflexivity.
  - reflexivity.
  - simpl. lia.
  - vm_compute. lia.
  - rewrite Hopen, Hfault. reflexivity.
Defined.

(** C7: when the stream handed to the archive step is detected as an
    archive with exactly one member, that member's bytes are read, whatever
    its name, and resolution goes on with an in-memory binary stream of
    exactly those bytes. *)
Theorem single_member_extracted (w : World) (st source : Stream)
  (archive : bytes) (zipsource : ZipFile) (member : text) (data : bytes)
  (encoding internal_name : option text) (no_request : bool) :
  make_seekable w st = Ok source ->
  is_zipfile w source = Some archive ->
  zipfile_ZipFile w archive = Ok zipsource ->
  zip_namelist zipsource = [member] ->
  zip_read zipsource member = Ok data ->
  unzip w source = Ok (Plain (io_BytesIO data))
  /\ resolve_stream w st encoding internal_name
     = (s <- sample_and_wrap w (Plain (io_BytesIO data)) encoding internal_name ;;
        Ok (Some s))
  /\ open_stream w (source_stream st) encoding no_request
     = (s <- sample_and_wrap w (Plain (io_BytesIO data)) encoding None ;;
        Ok (Some s)).
Proof.
  intros Hs Hz Ho Hn Hr.
  pose proof (unzip_single w source Hz Ho Hn Hr) as Hu.
  split; [exact Hu |].
  split; [| rewrite open_stream_of_stream];
    unfold resolve_stream; rewrite Hs; cbn [bind]; rewrite Hu; reflexivity.
Qed.

Lemma single_member_extracted_witness :
  is_csv demo_world (txt "payload.bin") = false
  /\ open_stream demo_world
       (source_stream (Plain (io_BytesIO one_member_zip))) None false
     = (s <- sample_and_wrap demo_world (Plain (io_BytesIO csv_bytes)) None None ;;
        Ok (Some s)).
Proof.
  split; [reflexivity |].
  apply (@single_member_extracted demo_world
           (Plain (io_BytesIO one_member_zip))
           (Plain (io_BytesIO one_member_zip))
           one_member_zip
           {| zip_namelist := [txt "payload.bin"];
              zip_read := fun _ => Ok csv_bytes |}
           (txt "payload.bin") csv_bytes None None false);
    reflexivity.
Defined.

(** ** The read position of the returned stream *)

Lemma size_take {A} (l : list A) (n : N) :
  size (take l n) = N.min (size l) n.
Proof.
  revert n. unfold size.
  induction l as [| x l IH]; intros n; cbn [take length].
  - cbn. lia.
  - destruct (N.eqb_spec n 0) as [-> | Hn]; cbn [length].
    + lia.
    + rewrite !Nat2N.inj_succ, IH. lia.
Qed.

Lemma drop_0 {A} (l : list A) : drop l 0 = l.
Proof. destruct l; reflexivity. Qed.

(** What the sampling step returns for an in-memory binary stream: a
    wrapper around the buffer, the buffer left where the sample read ended. *)
Lemma sample_and_wrap_bytes (w : World) (data : bytes)
  (encoding internal_name : option text) :
  let enc := match encoding with
             | None => detect_encoding w (take data MAX_SAMPLE_CHUNKSIZE)
             | Some _ => encoding
             end in
  match enc with None => true | Some e => codecs_lookup w e end = true ->
  exists s,
    sample_and_wrap w (Plain (io_BytesIO data)) encoding internal_name = Ok s
    /\ read_position s = N.min (size data) MAX_SAMPLE_CHUNKSIZE.
Proof.
  intros enc Hk.
  unfold sample_and_wrap. cbn [seek0 stream_read io_BytesIO content pos set_pos bind].
  rewrite drop_0. cbn [upto].
  unfold io_TextIOWrapper. fold enc. rewrite Hk. cbn [negb bind].
  eexists; split; [reflexivity |].
  destruct internal_name; cbn; rewrite size_take; lia.
Qed.

(** For a [bytes] source that is not an archive, the stream handed back
    stands after the sample, not at offset 0, as soon as there are bytes. *)
Lemma open_stream_bytes_offset (w : World) (data : bytes)
  (encoding : option text) (no_request : bool) :
  zipfile_is_zipfile w data = false ->
  match (match encoding with
         | None => detect_encoding w (take data MAX_SAMPLE_CHUNKSIZE)
         | Some _ => encoding
         end) with
  | None => true
  | Some e => codecs_lookup w e
  end = true ->
  exists s,
    open_stream w (source_bytes data) encoding no_request = Ok (Some s)
    /\ read_position s = N.min (size data) MAX_SAMPLE_CHUNKSIZE.
Proof.
  intros Hz Hk.
  destruct (sample_and_wrap_bytes w data encoding None Hk) as (s & Hs & Hp).
  exists s. split; [| exact Hp].
  assert (Hu : unzip w (Plain (io_BytesIO data)) = Ok (Plain (io_BytesIO data))).
  { unfold unzip, is_zipfile. cbn [content io_BytesIO]. rewrite Hz. reflexivity. }
  rewrite open_stream_of_bytes. unfold resolve_stream.
  change (make_seekable w (Plain (io_BytesIO data)))
    with (@Ok Stream (Plain (io_BytesIO data))).
  cbn [bind]. rewrite Hu. cbn [bind]. rewrite Hs. reflexivity.
Qed.

(** C1: resolving the bytes ["a,b\n1,2\n"] succeeds, but the stream handed
    back stands at offset 8, the end of the sample read, and reading it
    yields the empty text: the sample read is not followed by a seek back
    to the start. *)
Theorem open_stream_bytes_not_rewound :
  exists s,
    open_stream demo_world (source_bytes csv_bytes) None false = Ok (Some s)
    /\ read_position s = 8%N
    /\ read_all demo_world s = Ok (CText [])
    /\ read_all demo_world (seek0 s)
       = Ok (CText (txt "a,b" ++ [LF] ++ txt "1,2" ++ [LF])).
Proof.
  eexists.
  split; [vm_compute; reflexivity |].
  split; [reflexivity |].
  split; vm_compute; reflexivity.
Qed.

(** ** Literal multi-line text *)

Lemma crlf_has_lf (s : text) :
  str_contains CRLF s = true -> str_contains [LF] s = true.
Proof.
  induction s as [| c s IH]; [discriminate |].
  cbn [str_contains]. rewrite !orb_true_iff.
  intros [Hp | Hrest]; [| right; auto].
  right.
  destruct s as [| d s']; cbn in Hp; [rewrite andb_false_r in Hp; discriminate |].
  apply andb_prop in Hp as [_ Hp]. rewrite andb_true_r in Hp.
  cbn. rewrite Hp. reflexivity.
Qed.

Lemma to_crlf_grows (s : text) :
  length s <= length (flat_map to_crlf s).
Proof.
  induction s as [| c s IH]; cbn [flat_map]; [lia |].
  rewrite length_app. unfold to_crlf at 1.
  destruct (N.eqb c LF); simpl; lia.
Qed.

Lemma to_crlf_longer (s : text) :
  str_contains [LF] s = true -> length s < length (flat_map to_crlf s).
Proof.
  induction s as [| c s IH]; [discriminate |].
  cbn [str_contains is_prefix flat_map]. rewrite length_app.
  unfold to_crlf at 1. rewrite N.eqb_sym.
  destruct (N.eqb c LF) eqn:E; simpl.
  - intros _. pose proof (to_crlf_grows s). lia.
  - intros H. apply IH in H. lia.
Qed.

(** A literal containing ["\r\n"] is stored with every ["\n"] turned into
    ["\r\n"], so what is read back is strictly longer than the source. *)
Lemma open_stream_crlf_literal (w : World) (s : text)
  (encoding : option text) (no_request : bool) :
  str_contains CRLF s = true ->
  exists st stored,
    open_stream w (source_str s) encoding no_request = Ok (Some st)
    /\ read_position st = 0%N
    /\ read_all w st = Ok (CText stored)
    /\ length s < length stored.
Proof.
  intros Hc. pose proof (crlf_has_lf s Hc) as Hl.
  exists (Plain (io_StringIO s CRLF)), (flat_map to_crlf s).
  unfold open_stream. rewrite Hl, Hc.
  split; [reflexivity |]. split; [reflexivity |].
  split; [| apply to_crlf_longer; exact Hl].
  unfold read_all, stream_read, io_StringIO.
  cbn [CRLF N.eqb CR Pos.eqb content pos bind upto].
  rewrite drop_0. reflexivity.
Qed.

(** C2: resolving the literal "a\r\nb" gives a stream at offset 0 whose
    content reads back as "a\r\r\nb": the newline argument "\r\n" makes the
    in-memory text stream replace the "\n" of every "\r\n" by "\r\n" again,
    so a "\r" is added and the text read back is not the original. *)
Theorem open_stream_crlf_doubled (w : World) (encoding : option text)
  (no_request : bool) :
  exists st,
    open_stream w (source_str a_crlf_b) encoding no_request = Ok (Some st)
    /\ read_position st = 0%N
    /\ read_all w st = Ok (CText [97%N; CR; CR; LF; 98%N])
    /\ read_all w st <> Ok (CText a_crlf_b).
Proof.
  exists (Plain (io_StringIO a_crlf_b CRLF)).
  split; [reflexivity |]. split; [reflexivity |].
  split; [reflexivity | discriminate].
Qed.

(** ** Strings that are locations *)

(** A newline-free string for which both classifiers return, and return
    negative, resolves to [None]. *)
Lemma open_stream_unresolved (w : World) (s : text)
  (encoding : option text) (no_request : bool) :
  str_contains [LF] s = false ->
  is_local w (Some s) = Ok None ->
  (no_request = true \/ is_url w (Some s) false = Ok false) ->
  open_stream w (source_str s) encoding no_request = Ok None.
Proof.
  intros Hl Hloc Hurl. unfold open_stream. rewrite Hl, Hloc. cbn [bind].
  destruct no_request; [reflexivity |].
  destruct Hurl as [Hurl | Hurl]; [discriminate |].
  rewrite Hurl. reflexivity.
Qed.

(** C8: the newline-free string "//[x" names nothing that exists on disk
    and is not a URL for [is_url], yet resolving it raises: [urlparse]
    rejects it with a [ValueError], which [is_local] does not handle
    (it handles [AttributeError] only), so no [None] is returned. *)
Theorem open_stream_bracket_path_raises :
  str_contains [LF] bracket_path = false
  /\ (forall p, os_path_exists demo_world p = false)
  /\ is_url demo_world (Some bracket_path) false = Ok false
  /\ is_local demo_world (Some bracket_path)
     = Raise (ValueError (Literal "Invalid IPv6 URL"))
  /\ open_stream demo_world (source_str bracket_path) None false
     = Raise (ValueError (Literal "Invalid IPv6 URL"))
  /\ open_stream demo_world (source_str bracket_path) None true
     = Raise (ValueError (Literal "Invalid IPv6 URL")).
Proof.
  repeat split; reflexivity.
Qed.

(** A fetched URL whose encoding is known, from the caller or from the
    response, never resolves: the wrapper is built on the response's
    [bytes], not on a stream. *)
Lemma open_stream_url_encoding_raises (w : World) (s : text)
  (encoding : option text) (rq : Requests) (response : Response) (e : text) :
  str_contains [LF] s = false ->
  is_local w (Some s) = Ok None ->
  is_url w (Some s) false = Ok true ->
  requests w = Some rq ->
  requests_get rq s = Ok response ->
  response_ok response = true ->
  match encoding with
  | None => response_encoding response
  | Some _ => encoding
  end = Some e ->
  open_stream w (source_str s) encoding false
  = Raise (if codecs_lookup w e then AttributeError else LookupError).
Proof.
  intros Hl Hloc Hurl Hrq Hget Hok Henc.
  unfold open_stream. rewrite Hl, Hloc. cbn [bind].
  rewrite Hurl. cbn [bind]. rewrite Hrq, Hget. cbn [bind].
  rewrite Hok. cbn [negb]. rewrite Henc.
  unfold io_TextIOWrapper. destruct (codecs_lookup w e); reflexivity.
Qed.

(** With no encoding from either side the body is kept as bytes and goes
    through the stream steps. *)
Lemma open_stream_url_no_encoding (w : World) (s : text)
  (rq : Requests) (response : Response) :
  str_contains [LF] s = false ->
  is_local w (Some s) = Ok None ->
  is_url w (Some s) false = Ok true ->
  requests w = Some rq ->
  requests_get rq s = Ok response ->
  response_ok response = true ->
  response_encoding response = None ->
  open_stream w (source_str s) None false
  = resolve_stream w (Plain (io_BytesIO (response_content response)))
      None (Some s).
Proof.
  intros Hl Hloc Hurl Hrq Hget Hok Henc.
  unfold open_stream. rewrite Hl, Hloc. cbn [bind].
  rewrite Hurl. cbn [bind]. rewrite Hrq, Hget. cbn [bind].
  rewrite Hok. cbn [negb]. rewrite Henc. reflexivity.
Qed.

(** C6: with no explicit encoding, fetching "http://example.org/data.csv"
    succeeds with the declared encoding "utf-8", a known codec; the
    declared encoding is adopted, the text wrapper is then built directly
    on the response's bytes, and resolution ends in [AttributeError]
    instead of a stream. *)
Theorem open_stream_url_declared_encoding_raises :
  str_contains [LF] data_url = false
  /\ is_local demo_world (Some data_url) = Ok None
  /\ is_url demo_world (Some data_url) false = Ok true
  /\ requests_get demo_requests data_url
     = Ok {| response_ok := true;
             response_encoding := Some (txt "utf-8");
             response_content := csv_bytes |}
  /\ codecs_lookup demo_world (txt "utf-8") = true
  /\ open_stream demo_world (source_str data_url) None false
     = Raise AttributeError.
Proof.
  repeat split; reflexivity.
Qed.

(** An ordinary path to a file that does not exist resolves to [None]. *)
Example open_stream_missing_file :
  open_stream demo_world (source_str (txt "/no/such/file.csv")) None false
  = Ok None.
Proof.
  apply open_stream_unresolved; [reflexivity | reflexivity | right; reflexivity].
Qed.

(** * Further properties *)

(** ** Counting terminators *)

Lemma count_single (c : codepoint) (t : text) :
  count_scan [c] 0 t = occurrences c t.
Proof.
  unfold occurrences.
  induction t as [| a t IH]; [reflexivity |].
  cbn [count_scan is_prefix length pred filter].
  rewrite andb_true_r. destruct (N.eqb c a); cbn [length]; rewrite IH; reflexivity.
Qed.

Lemma occurrences_absent (c : codepoint) (t : text) :
  ~ In c t -> occurrences c t = 0.
Proof.
  unfold occurrences. induction t as [| a t IH]; [reflexivity |].
  intros H. cbn [filter].
  destruct (N.eqb_spec c a) as [-> | _].
  - exfalso. apply H. left. reflexivity.
  - apply IH. intros Hin. apply H. right. exact Hin.
Qed.

Lemma occurrences_present (c : codepoint) (t : text) :
  In c t -> 0 < occurrences c t.
Proof.
  unfold occurrences. induction t as [| a t IH]; [intros [] |].
  intros [-> | Hin]; cbn [filter].
  - rewrite N.eqb_refl. cbn. lia.
  - destruct (N.eqb c a); cbn [length]; [lia | auto].
Qed.

Lemma is_prefix_crlf (a : codepoint) (t : text) :
  is_prefix CRLF (a :: t) = true <-> a = CR /\ exists t', t = LF :: t'.
Proof.
  unfold CRLF. cbn [is_prefix]. split.
  - intros H. apply andb_prop in H as [Ha Ht].
    apply N.eqb_eq in Ha. split; [auto |].
    destruct t as [| b t']; [discriminate |].
    apply andb_prop in Ht as [Hb _]. apply N.eqb_eq in Hb.
    exists t'. congruence.
  - intros [-> [t' ->]]. rewrite !N.eqb_refl. reflexivity.
Qed.

(** Every counted ["\r\n"] has its own ["\r"] and its own ["\n"]. *)
Lemma count_crlf_bounded (t : text) (skip : nat) :
  skip <= 1 ->
  count_scan CRLF skip t <= occurrences CR t
  /\ count_scan CRLF skip t
     + match skip, t with
       | 1, c :: _ => if N.eqb LF c then 1 else 0
       | _, _ => 0
       end <= occurrences LF t.
Proof.
  unfold occurrences. revert skip.
  induction t as [| a t IH]; intros skip Hs.
  - destruct skip as [| [| skip]]; cbn; lia.
  - destruct skip as [| [| skip]]; [| | lia].
    + cbn [count_scan].
      destruct (is_prefix CRLF (a :: t)) eqn:Hp.
      * apply is_prefix_crlf in Hp as [-> [t' ->]].
        destruct (IH 1 (le_n 1)) as [H1 H2].
        rewrite N.eqb_refl in H2.
        change (pred (length CRLF)) with 1.
        change (filter (N.eqb CR) (CR :: LF :: t'))
          with (CR :: filter (N.eqb CR) (LF :: t')).
        change (filter (N.eqb LF) (CR :: LF :: t'))
          with (filter (N.eqb LF) (LF :: t')).
        cbn [length]. lia.
      * destruct (IH 0 (le_S _ _ (le_n 0))) as [H1 H2].
        cbn [filter]. destruct (N.eqb CR a), (N.eqb LF a); cbn [length]; lia.
    + cbn [count_scan].
      destruct (IH 0 (le_S _ _ (le_n 0))) as [H1 H2].
      cbn [filter]. destruct (N.eqb CR a), (N.eqb LF a); cbn [length]; lia.
Qed.

Lemma str_count_single (c : codepoint) (t : text) :
  str_count t [c] = Z.of_nat (occurrences c t).
Proof. unfold str_count. rewrite count_single. reflexivity. Qed.

Lemma str_count_crlf_le (t : text) :
  (0 <= str_count t CRLF <= str_count t [CR])%Z
  /\ (str_count t CRLF <= str_count t [LF])%Z.
Proof.
  rewrite !str_count_single.
  change (str_count t CRLF) with (Z.of_nat (count_scan CRLF 0 t)).
  destruct (count_crlf_bounded t (le_S _ _ (le_n 0))) as [H1 H2]. lia.
Qed.

(** ** The detector on text samples *)

Ltac rank t :=
  rewrite detect_str_unfold;
  let rest := fresh "rest" in
  destruct (ranked_head (str_count t CRLF) (str_count t [CR]) (str_count t [LF]))
    as [rest ->];
  destruct (Z.ltb_spec (str_count t [CR]) (str_count t [LF]));
  [ destruct (Z.ltb_spec (str_count t CRLF) (str_count t [LF]))
  | destruct (Z.ltb_spec (str_count t CRLF) (str_count t [CR])) ].

Ltac zero_or_not :=
  match goal with
  | |- context [Z.eqb ?c 0] => destruct (Z.eqb_spec c 0)
  end.

(** X1: a text sample without any "\r" or "\n" (the empty sample included)
    yields the caller's default, or "\n" when none was passed. *)
Theorem detect_no_terminator (t : text) (default : option AnyStr) :
  ~ In CR t -> ~ In LF t ->
  detect_line_terminator (sample_str t) default = Ok (default_of default).
Proof.
  intros Hcr Hlf.
  pose proof (str_count_crlf_le t) as [[H0 H1] H2].
  pose proof (str_count_single CR t) as Ecr.
  pose proof (str_count_single LF t) as Elf.
  rewrite (occurrences_absent _ _ Hcr) in Ecr.
  rewrite (occurrences_absent _ _ Hlf) in Elf.
  rank t; try lia; zero_or_not; try lia; reflexivity.
Qed.

Lemma detect_no_terminator_witness :
  detect_line_terminator (sample_str (txt "a,b;c")) (Some (Str [CR]))
  = Ok (Str [CR]).
Proof.
  apply (@detect_no_terminator (txt "a,b;c") (Some (Str [CR])));
    vm_compute; intuition discriminate.
Defined.

(** X2: on a text sample the detector never raises; it returns either the
    default, and then none of the three terminators occurs, or one of the
    three terminators, which then occurs in the sample and is counted at
    least as often as each of the other two. *)
Theorem detect_result (t : text) (default : option AnyStr) :
  exists r,
    detect_line_terminator (sample_str t) default = Ok r
    /\ ((r = default_of default
         /\ forall term, In term LINE_TERMINATORS -> str_count t term = 0%Z)
        \/ (exists term,
               r = Str term /\ In term LINE_TERMINATORS
               /\ (0 < str_count t term)%Z
               /\ forall other, In other LINE_TERMINATORS ->
                                (str_count t other <= str_count t term)%Z)).
Proof.
  pose proof (str_count_crlf_le t) as [[H0 H1] H2].
  assert (Hall : forall (P : text -> Prop),
             P CRLF -> P [CR] -> P [LF] ->
             forall term, In term LINE_TERMINATORS -> P term).
  { intros P Pa Pb Pc term [<- | [<- | [<- | []]]]; assumption. }
  rank t; zero_or_not; eexists; (split; [reflexivity |]);
    try (left; split; [reflexivity | apply Hall; lia]);
    right;
    [ exists [LF] | exists CRLF | exists [CR] | exists CRLF ];
    (split; [reflexivity |]);
    (split; [cbn; tauto |]);
    (split; [lia | apply Hall; lia]).
Qed.

Lemma detect_single (c other : codepoint) (t : text) (default : option AnyStr) :
  (c = CR /\ other = LF) \/ (c = LF /\ other = CR) ->
  In c t -> ~ In other t ->
  detect_line_terminator (sample_str t) default = Ok (Str [c]).
Proof.
  intros Hc Hin Hout.
  pose proof (str_count_crlf_le t) as [[H0 H1] H2].
  pose proof (str_count_single c t) as Ec.
  pose proof (str_count_single other t) as Eo.
  rewrite (occurrences_absent _ _ Hout) in Eo.
  pose proof (occurrences_present _ _ Hin) as Hpos.
  destruct Hc as [[-> ->] | [-> ->]];
    rank t; try lia; zero_or_not; try lia; reflexivity.
Qed.

(** X3: a text sample that contains "\n" and no "\r" is detected as "\n",
    and one that contains "\r" and no "\n" as "\r", whatever the default. *)
Theorem detect_single_character (c other : codepoint) (t : text)
  (default : option AnyStr) :
  (c = CR /\ other = LF) \/ (c = LF /\ other = CR) ->
  In c t -> ~ In other t ->
  detect_line_terminator (sample_str t) default = Ok (Str [c]).
Proof. apply detect_single. Qed.

Lemma detect_single_character_witness :
  detect_line_terminator
    (sample_str (txt "a,b" ++ [LF] ++ txt "1,2" ++ [LF])) (Some (Str [CR]))
  = Ok (Str [LF]).
Proof.
  apply (@detect_single_character LF CR
           (txt "a,b" ++ [LF] ++ txt "1,2" ++ [LF]) (Some (Str [CR]))).
  - right. split; reflexivity.
  - vm_compute. tauto.
  - vm_compute. intuition discriminate.
Defined.

(** X4: once "\r\n" occurs in a text sample, it is the detected terminator
    exactly when "\r" and "\n" are each counted as often as "\r\n", that
    is, when no "\r" or "\n" stands outside a counted "\r\n"; one stray
    "\n" is enough to lose it. *)
Theorem detect_crlf_iff (t : text) (default : option AnyStr) :
  (0 < str_count t CRLF)%Z ->
  (detect_line_terminator (sample_str t) default = Ok (Str CRLF)
   <-> str_count t [CR] = str_count t CRLF
       /\ str_count t [LF] = str_count t CRLF).
Proof.
  intros Hpos.
  pose proof (str_count_crlf_le t) as [[H0 H1] H2].
  split.
  - rank t; zero_or_not; try lia; intros Hd; try discriminate Hd; lia.
  - intros [E1 E2]. apply detect_crlf_dominant; lia.
Qed.

Lemma detect_crlf_iff_witness :
  detect_line_terminator (sample_str (CRLF ++ CRLF ++ [LF])) None
  = Ok (Str [LF])
  /\ (detect_line_terminator (sample_str (CRLF ++ CRLF ++ [LF])) None
      = Ok (Str CRLF)
      <-> str_count (CRLF ++ CRLF ++ [LF]) [CR]
          = str_count (CRLF ++ CRLF ++ [LF]) CRLF
          /\ str_count (CRLF ++ CRLF ++ [LF]) [LF]
             = str_count (CRLF ++ CRLF ++ [LF]) CRLF).
Proof.
  split; [reflexivity |].
  apply (@detect_crlf_iff (CRLF ++ CRLF ++ [LF]) None). reflexivity.
Defined.

(** ** Lines joined with one terminator *)

Lemma occurrences_app (c : codepoint) (a b : text) :
  occurrences c (a ++ b) = occurrences c a + occurrences c b.
Proof. unfold occurrences. rewrite filter_app, length_app. reflexivity. Qed.

Lemma count_crlf_skip_line (line rest : text) :
  ~ In CR line ->
  count_scan CRLF 0 (line ++ rest) = count_scan CRLF 0 rest.
Proof.
  induction line as [| a line IH]; [reflexivity |].
  intros H. cbn [app count_scan].
  destruct (is_prefix CRLF (a :: line ++ rest)) eqn:Hp.
  - apply is_prefix_crlf in Hp as [-> _]. exfalso. apply H. left. reflexivity.
  - apply IH. intros Hin. apply H. right. exact Hin.
Qed.

Lemma in_terminated (x : codepoint) (term : text) (lines : list text) :
  In x (terminated term lines) ->
  In x term \/ exists line, In line lines /\ In x line.
Proof.
  unfold terminated. induction lines as [| line lines IH]; [intros [] |].
  cbn [List.map concat]. rewrite !in_app_iff.
  intros [[H | H] | H].
  - right. exists line. split; [left; reflexivity | exact H].
  - left. exact H.
  - destruct (IH H) as [Ht | (l & Hl & Hx)]; [left; exact Ht |].
    right. exists l. split; [right; exact Hl | exact Hx].
Qed.

Lemma counts_crlf_terminated (lines : list text) :
  Forall plain_line lines ->
  count_scan CRLF 0 (terminated CRLF lines) = length lines
  /\ occurrences CR (terminated CRLF lines) = length lines
  /\ occurrences LF (terminated CRLF lines) = length lines.
Proof.
  unfold terminated.
  induction 1 as [| line lines [Hcr Hlf] _ (IH1 & IH2 & IH3)];
    [repeat split |].
  cbn [List.map concat length].
  rewrite <- app_assoc, count_crlf_skip_line by exact Hcr.
  rewrite !occurrences_app, (occurrences_absent _ _ Hcr),
    (occurrences_absent _ _ Hlf), IH2, IH3.
  repeat split.
  change (CRLF ++ concat (List.map (fun line0 => line0 ++ CRLF) lines))
    with (CR :: LF :: concat (List.map (fun line0 => line0 ++ CRLF) lines)).
  cbn [count_scan].
  rewrite (proj2 (is_prefix_crlf CR _)) by (split; [reflexivity | eexists; reflexivity]).
  cbn [length pred CRLF]. rewrite IH1. reflexivity.
Qed.

(** X5: lines that contain no "\r" and no "\n", each followed by the same
    terminator, one of "\r\n", "\r", "\n": the detector returns exactly
    that terminator, whatever default was passed. *)
Theorem detect_terminated (term : text) (lines : list text)
  (default : option AnyStr) :
  In term LINE_TERMINATORS ->
  lines <> [] ->
  Forall plain_line lines ->
  detect_line_terminator (sample_str (terminated term lines)) default
  = Ok (Str term).
Proof.
  intros Hterm Hne Hplain.
  assert (Hfree : forall c x, x <> c ->
             (forall line, In line lines -> ~ In x line) ->
             ~ In x (terminated [c] lines)).
  { intros c x Hx Hl Hin. apply in_terminated in Hin as [[E | []] | (l & Hin & Hxl)].
    - apply Hx. symmetry. exact E.
    - exact (Hl l Hin Hxl). }
  assert (Hhas : forall c, In c (terminated [c] lines)).
  { intros c. destruct lines as [| l ls]; [congruence |].
    unfold terminated. cbn [List.map concat]. rewrite !in_app_iff.
    left. right. left. reflexivity. }
  rewrite Forall_forall in Hplain.
  destruct Hterm as [<- | [<- | [<- | []]]].
  - rewrite <- Forall_forall in Hplain.
    destruct (counts_crlf_terminated Hplain) as (E1 & E2 & E3).
    assert (0 < length lines) by (destruct lines; [congruence | cbn; lia]).
    apply detect_crlf_dominant; rewrite ?str_count_single;
      change (str_count (terminated CRLF lines) CRLF)
        with (Z.of_nat (count_scan CRLF 0 (terminated CRLF lines)));
      lia.
  - apply (@detect_single CR LF); [left; split; reflexivity | apply Hhas |].
    apply Hfree; [discriminate | intros l Hl; apply (Hplain l Hl)].
  - apply (@detect_single LF CR); [right; split; reflexivity | apply Hhas |].
    apply Hfree; [discriminate | intros l Hl; apply (Hplain l Hl)].
Qed.

Lemma detect_terminated_witness :
  detect_line_terminator
    (sample_str (terminated CRLF [txt "a,b"; []; txt "1,2"])) None
  = Ok (Str CRLF).
Proof.
  apply (@detect_terminated CRLF [txt "a,b"; []; txt "1,2"] None).
  - left. reflexivity.
  - discriminate.
  - repeat constructor; vm_compute; intuition discriminate.
Defined.

(** ** Location classifiers *)

Lemma text_eqb_eq (a b : text) : text_eqb a b = true <-> a = b.
Proof.
  revert b. induction a as [| x a IH]; intros [| y b]; cbn [text_eqb];
    try (split; [discriminate | discriminate]); [tauto |].
  rewrite andb_true_iff, N.eqb_eq, IH. split.
  - intros [-> ->]. reflexivity.
  - intros E. injection E as -> ->. tauto.
Qed.

Lemma text_eqb_neq (a b : text) : text_eqb a b = false <-> a <> b.
Proof.
  rewrite <- text_eqb_eq. destruct (text_eqb a b); split; congruence.
Qed.

Ltac break_if H :=
  match type of H with
  | context [if ?c then _ else _] =>
      let E := fresh "E" in destruct c eqn:E
  | context [match ?c with _ => _ end] =>
      let E := fresh "E" in destruct c eqn:E
  end.

(** X6: a path returned by [is_local] is always the absolute form of a
    candidate that exists on disk. *)
Theorem is_local_sound (w : World) (location : option text) (p : text) :
  is_local w location = Ok (Some p) ->
  exists candidate,
    os_path_exists w candidate = true /\ p = os_path_abspath w candidate.
Proof.
  unfold is_local. intros H.
  repeat break_if H; try discriminate H;
    injection H as <-; eexists; (split; [| reflexivity]); assumption.
Qed.

Lemma is_local_sound_witness :
  is_local home_world (Some (txt "~/data.csv")) = Ok (Some home_file)
  /\ exists candidate,
       os_path_exists home_world candidate = true
       /\ home_file = os_path_abspath home_world candidate.
Proof.
  split; [reflexivity |].
  apply (@is_local_sound home_world (Some (txt "~/data.csv")) home_file).
  reflexivity.
Defined.

(** X7: when the location itself exists on disk, its absolute form is
    returned, whatever the string parses to as a URI: the raw string takes
    precedence over the path rebuilt from the parsed URI. *)
Theorem is_local_raw_precedence (w : World) (location : text)
  (parsed_location : ParseResult) :
  location <> [] ->
  urlparse w location = Ok parsed_location ->
  os_path_exists w location = true ->
  is_local w (Some location) = Ok (Some (os_path_abspath w location)).
Proof.
  intros Hne Hp He. unfold is_local.
  rewrite (proj2 (text_eqb_neq location []) Hne), Hp, He. reflexivity.
Qed.

Lemma is_local_raw_precedence_witness :
  is_local home_world (Some home_file) = Ok (Some home_file).
Proof.
  apply (@is_local_raw_precedence home_world home_file (plain_path home_file));
    [discriminate | reflexivity | reflexivity].
Defined.

(** X8: for a string with a scheme other than "file" or the empty one, the
    path component of the parsed URI is never looked up: unless the raw
    string names an existing file, as it stands or with the home directory
    expanded, the answer is [None]. *)
Theorem is_local_remote_scheme (w : World) (location : text)
  (parsed_location : ParseResult) :
  urlparse w location = Ok parsed_location ->
  text_in (url_scheme parsed_location) [URI_SCHEME_LOCAL; []] = false ->
  os_path_exists w location = false ->
  os_path_exists w (os_path_expanduser w location) = false ->
  is_local w (Some location) = Ok None.
Proof.
  intros Hp Hs He Hx. unfold is_local.
  destruct (text_eqb location []); [reflexivity |].
  rewrite Hp, Hs, He, Hx. reflexivity.
Qed.

Lemma is_local_remote_scheme_witness :
  os_path_exists home_world home_file = true
  /\ is_local home_world (Some home_http_url) = Ok None.
Proof.
  split; [reflexivity |].
  apply (@is_local_remote_scheme home_world home_http_url
           {| url_scheme := txt "http"; url_netloc := txt "example.org";
              url_path := home_file |}); reflexivity.
Defined.





Lemma accepted_scheme (scheme : text) :
  text_in scheme URI_SCHEMES_ACCEPTED = true ->
  scheme <> [] /\ scheme <> URI_SCHEME_LOCAL.
Proof.
  unfold text_in, URI_SCHEMES_ACCEPTED. cbn [existsb].
  rewrite !orb_true_iff, !text_eqb_eq.
  intros [-> | [-> | H]]; [| | discriminate H];
    split; intros Habs; vm_compute in Habs; discriminate Habs.
Qed.

(** X11: with [no_request] set, [is_url] never raises and never consults
    [requests]: it answers [True] exactly for a non-empty string that
    parses with a non-empty host and the scheme "http" or "https". *)
Theorem is_url_syntactic (w : World) (location : option text) :
  exists answer,
    is_url w location true = Ok answer
    /\ (answer = true <->
        exists s parsed_location,
          location = Some s /\ s <> []
          /\ urlparse w s = Ok parsed_location
          /\ url_netloc parsed_location <> []
          /\ text_in (url_scheme parsed_location) URI_SCHEMES_ACCEPTED = true).
Proof.
  unfold is_url.
  destruct location as [s |];
    [| exists false; split; [reflexivity |];
       split; [discriminate | intros (s & pr & H & _); discriminate H]].
  destruct (text_eqb s []) eqn:Es.
  { exists false. split; [reflexivity |].
    split; [discriminate |].
    intros (s' & pr & H & Hne & _). injection H as <-.
    apply text_eqb_eq in Es. contradiction. }
  apply text_eqb_neq in Es.
  destruct (urlparse w s) as [pr | e] eqn:Ep.
  2:{ exists false. split; [reflexivity |].
      split; [discriminate |].
      intros (s' & pr & H & _ & Hp & _). injection H as <-. congruence. }
  destruct (text_eqb (url_scheme pr) []) eqn:E1;
    [| destruct (text_eqb (url_netloc pr) []) eqn:E2;
       [| destruct (text_eqb (url_scheme pr) URI_SCHEME_LOCAL) eqn:E3 ] ];
    cbn [orb].
  - exists false. split; [reflexivity |]. split; [discriminate |].
    intros (s' & pr' & H & _ & Hp & _ & Ha). injection H as <-.
    rewrite Ep in Hp. injection Hp as <-.
    apply accepted_scheme in Ha as [Ha _]. apply text_eqb_eq in E1. contradiction.
  - exists false. split; [reflexivity |]. split; [discriminate |].
    intros (s' & pr' & H & _ & Hp & Hn & _). injection H as <-.
    rewrite Ep in Hp. injection Hp as <-.
    apply text_eqb_eq in E2. contradiction.
  - exists false. split; [reflexivity |]. split; [discriminate |].
    intros (s' & pr' & H & _ & Hp & _ & Ha). injection H as <-.
    rewrite Ep in Hp. injection Hp as <-.
    apply accepted_scheme in Ha as [_ Ha]. apply text_eqb_eq in E3. contradiction.
  - exists (text_in (url_scheme pr) URI_SCHEMES_ACCEPTED).
    split; [reflexivity |]. split.
    + intros Ha. exists s, pr. apply text_eqb_neq in E2. auto.
    + intros (s' & pr' & H & _ & Hp & _ & Ha). injection H as <-.
      rewrite Ep in Hp. injection Hp as <-. exact Ha.
Qed.

(** X12: whenever [is_url] answers [True], the string parsed with a
    non-empty scheme other than "file" and a non-empty host; and when the
    probe was allowed and [requests] is installed, the HEAD request on that
    very string came back successful. *)
Theorem is_url_accepts (w : World) (location : option text)
  (no_request : bool) :
  is_url w location no_request = Ok true ->
  exists s parsed_location,
    location = Some s /\ s <> []
    /\ urlparse w s = Ok parsed_location
    /\ url_scheme parsed_location <> []
    /\ url_netloc parsed_location <> []
    /\ url_scheme parsed_location <> URI_SCHEME_LOCAL
    /\ (no_request = false ->
        forall rq, requests w = Some rq -> requests_head rq s = Ok true).
Proof.
  unfold is_url. intros H.
  destruct location as [s |]; [| discriminate H].
  destruct (text_eqb s []) eqn:Es; [discriminate H |].
  destruct (urlparse w s) as [pr | e] eqn:Ep; [| discriminate H].
  destruct (text_eqb (url_scheme pr) []) eqn:E1; [discriminate H |].
  destruct (text_eqb (url_netloc pr) []) eqn:E2; [discriminate H |].
  cbn [orb] in H.
  destruct (text_eqb (url_scheme pr) URI_SCHEME_LOCAL) eqn:E3; [discriminate H |].
  apply text_eqb_neq in Es, E1, E2, E3.
  exists s, pr. repeat (split; [assumption || reflexivity |]).
  intros -> rq Hrq. rewrite Hrq in H.
  destruct (requests_head rq s) as [b | e]; [congruence |].
  destruct e; discriminate H.
Qed.

Lemma is_url_accepts_witness :
  exists s parsed_location,
    Some data_url = Some s /\ s <> []
    /\ urlparse demo_world s = Ok parsed_location
    /\ url_scheme parsed_location <> []
    /\ url_netloc parsed_location <> []
    /\ url_scheme parsed_location <> URI_SCHEME_LOCAL
    /\ (false = false ->
        forall rq, requests demo_world = Some rq ->
                   requests_head rq s = Ok true).
Proof.
  apply (@is_url_accepts demo_world (Some data_url) false). reflexivity.
Defined.

(** X13: [is_url] raises only when the probe was allowed, [requests] is
    installed and the HEAD request itself raised something other than
    [InvalidSchema] and [ConnectionError]; parsing never makes it raise. *)
Theorem is_url_faults (w : World) (location : option text)
  (no_request : bool) (e : Exn) :
  is_url w location no_request = Raise e ->
  no_request = false
  /\ exists s rq,
       location = Some s /\ requests w = Some rq
       /\ requests_head rq s = Raise e
       /\ e <> InvalidSchema /\ e <> ConnectionError.
Proof.
  unfold is_url. intros H.
  destruct location as [s |]; [| discriminate H].
  destruct (text_eqb s []); [discriminate H |].
  destruct (urlparse w s) as [pr | e']; [| discriminate H].
  destruct (text_eqb (url_scheme pr) [] || text_eqb (url_netloc pr) [])%bool;
    [discriminate H |].
  destruct (text_eqb (url_scheme pr) URI_SCHEME_LOCAL); [discriminate H |].
  destruct no_request; [discriminate H |].
  split; [reflexivity |].
  destruct (requests w) as [rq |] eqn:Hrq; [| discriminate H].
  exists s, rq.
  destruct (requests_head rq s) as [b | e'] eqn:Hh; [discriminate H |].
  destruct e'; try discriminate H; injection H as <-;
    repeat split; auto; intros Habs; discriminate Habs.
Qed.

Lemma is_url_faults_witness :
  is_url
    (set_requests demo_world
       (Some {| requests_head := fun _ => Raise (OtherException "ReadTimeout");
                requests_get := requests_get demo_requests |}))
    (Some data_url) false
  = Raise (OtherException "ReadTimeout")
  /\ false = false.
Proof.
  split; [reflexivity |].
  apply (@is_url_faults
           (set_requests demo_world
              (Some {| requests_head :=
                         fun _ => Raise (OtherException "ReadTimeout");
                       requests_get := requests_get demo_requests |}))
           (Some data_url) false (OtherException "ReadTimeout")).
  reflexivity.
Defined.

(** ** Resolution: sources that are not streams *)

(** [None], the empty string and an object that is neither string,
    bytes nor stream resolve to [None] in every world, with or without
    network, whatever the encoding. *)
Theorem open_stream_nothing (w : World) (encoding : option text)
  (no_request : bool) :
  open_stream w source_None encoding no_request = Ok None
  /\ open_stream w (source_str []) encoding no_request = Ok None
  /\ open_stream w source_object encoding no_request = Ok None.
Proof.
  repeat split; destruct no_request; reflexivity.
Qed.

(** X14: a literal that contains "\n" but no "\r\n" becomes an in-memory
    text stream at offset 0 that reads back exactly the literal; no file,
    URL or codec is consulted, even if the literal names an existing file. *)
Theorem open_stream_lf_literal (w : World) (s : text)
  (encoding : option text) (no_request : bool) :
  str_contains [LF] s = true ->
  str_contains CRLF s = false ->
  exists st,
    open_stream w (source_str s) encoding no_request = Ok (Some st)
    /\ read_position st = 0%N
    /\ read_all w st = Ok (CText s).
Proof.
  intros Hl Hc. exists (Plain (io_StringIO s [LF])).
  unfold open_stream. rewrite Hl, Hc.
  split; [reflexivity |]. split; [reflexivity |].
  unfold read_all, stream_read, io_StringIO.
  cbn [N.eqb LF CR Pos.eqb content pos bind upto].
  rewrite drop_0. reflexivity.
Qed.

Lemma open_stream_lf_literal_witness :
  exists st,
    open_stream home_world (source_str (txt "a,b" ++ [LF] ++ txt "1,2")) None false
    = Ok (Some st)
    /\ read_position st = 0%N
    /\ read_all home_world st = Ok (CText (txt "a,b" ++ [LF] ++ txt "1,2")).
Proof.
  apply (@open_stream_lf_literal home_world (txt "a,b" ++ [LF] ++ txt "1,2")
           None false); reflexivity.
Defined.

(** X15: with [no_request] set, the result does not depend on the
    [requests] module at all: no probe and no fetch is made, for any
    source. *)
Theorem open_stream_no_request (w : World) (rq : option Requests)
  (source : Source) (encoding : option text) :
  open_stream (set_requests w rq) source encoding true
  = open_stream w source encoding true.
Proof.
  destruct source; reflexivity.
Qed.

(** X16: when [requests] could not be imported, a string that is no local
    path but parses as an "http" or "https" URL with a host is taken for a
    URL on syntax alone, and the fetch then fails with [AttributeError]
    instead of answering [None]. *)
Theorem open_stream_requests_missing (w : World) (s : text)
  (parsed_location : ParseResult) (encoding : option text) :
  requests w = None ->
  str_contains [LF] s = false ->
  s <> [] ->
  is_local w (Some s) = Ok None ->
  urlparse w s = Ok parsed_location ->
  url_netloc parsed_location <> [] ->
  text_in (url_scheme parsed_location) URI_SCHEMES_ACCEPTED = true ->
  is_url w (Some s) false = Ok true
  /\ open_stream w (source_str s) encoding false = Raise AttributeError.
Proof.
  intros Hrq Hl Hne Hloc Hp Hn Ha.
  destruct (accepted_scheme _ Ha) as [H1 H2].
  assert (Hurl : is_url w (Some s) false = Ok true).
  { unfold is_url.
    rewrite (proj2 (text_eqb_neq s []) Hne), Hp,
      (proj2 (text_eqb_neq _ _) H1), (proj2 (text_eqb_neq _ _) Hn),
      (proj2 (text_eqb_neq _ _) H2), Hrq, Ha. reflexivity. }
  split; [exact Hurl |].
  unfold open_stream. rewrite Hl, Hloc. cbn [bind].
  rewrite Hurl. cbn [bind]. rewrite Hrq. reflexivity.
Qed.

Lemma open_stream_requests_missing_witness :
  is_url home_world (Some home_http_url) false = Ok true
  /\ open_stream home_world (source_str home_http_url) None false
     = Raise AttributeError.
Proof.
  apply (@open_stream_requests_missing home_world home_http_url
           {| url_scheme := txt "http"; url_netloc := txt "example.org";
              url_path := home_file |} None);
    try reflexivity; discriminate.
Defined.

(** X17: a fetch that comes back with a non-success status resolves to
    [None], whatever encoding and body the response carries. *)
Theorem open_stream_fetch_refused (w : World) (s : text)
  (encoding : option text) (rq : Requests) (response : Response) :
  str_contains [LF] s = false ->
  is_local w (Some s) = Ok None ->
  is_url w (Some s) false = Ok true ->
  requests w = Some rq ->
  requests_get rq s = Ok response ->
  response_ok response = false ->
  open_stream w (source_str s) encoding false = Ok None.
Proof.
  intros Hl Hloc Hurl Hrq Hget Hok.
  unfold open_stream. rewrite Hl, Hloc. cbn [bind].
  rewrite Hurl. cbn [bind]. rewrite Hrq, Hget. cbn [bind].
  rewrite Hok. reflexivity.
Qed.

Lemma open_stream_fetch_refused_witness :
  open_stream
    (set_requests demo_world
       (Some {| requests_head := fun _ => Ok true;
                requests_get := fun _ =>
                  Ok {| response_ok := false;
                        response_encoding := Some (txt "utf-8");
                        response_content := bts "Not Found" |} |}))
    (source_str data_url) None false
  = Ok None.
Proof.
  apply (@open_stream_fetch_refused _ data_url None
           {| requests_head := fun _ => Ok true;
              requests_get := fun _ =>
                Ok {| response_ok := false;
                      response_encoding := Some (txt "utf-8");
                      response_content := bts "Not Found" |} |}
           {| response_ok := false;
              response_encoding := Some (txt "utf-8");
              response_content := bts "Not Found" |});
    reflexivity.
Defined.

(** ** Resolution: archives *)

Lemma count_names_last (w : World) (names : list text)
  (ct cc : Z) (fn : option text) :
  fold_left
    (fun st name =>
       let '(count_total, count_csv, csv_filename) := st in
       if is_csv w name
       then (count_total + 1, count_csv + 1, Some name)%Z
       else (count_total + 1, count_csv, csv_filename)%Z)
    names (ct, cc, fn)
  = ((ct + Z.of_nat (length names))%Z,
     (cc + Z.of_nat (length (csv_names w names)))%Z,
     fold_left (fun _ name => Some name) (csv_names w names) fn).
Proof.
  revert ct cc fn.
  induction names as [| name names IH]; intros ct cc fn.
  - cbn. apply (f_equal2 pair); [apply (f_equal2 pair); lia | reflexivity].
  - cbn [fold_left csv_names filter].
    destruct (is_csv w name); rewrite IH; unfold csv_names; cbn [length fold_left];
      (apply (f_equal2 pair); [apply (f_equal2 pair); lia | reflexivity]).
Qed.

Lemma unzip_empty (w : World) (source : Stream) (archive : bytes)
  (zipsource : ZipFile) :
  is_zipfile w source = Some archive ->
  zipfile_ZipFile w archive = Ok zipsource ->
  zip_namelist zipsource = [] ->
  unzip w source = Raise (ValueError (Literal EMPTY_ZIP)).
Proof.
  intros Hz Ho Hn. unfold unzip. rewrite Hz, Ho. cbn [bind].
  rewrite Hn. reflexivity.
Qed.

Lemma unzip_one_csv (w : World) (source : Stream) (archive : bytes)
  (zipsource : ZipFile) (member : text) :
  is_zipfile w source = Some archive ->
  zipfile_ZipFile w archive = Ok zipsource ->
  1 < length (zip_namelist zipsource) ->
  csv_names w (zip_namelist zipsource) = [member] ->
  unzip w source
  = (data <- zip_read zipsource member ;; Ok (Plain (io_BytesIO data))).
Proof.
  intros Hz Ho Hn Hc. unfold unzip. rewrite Hz, Ho. cbn [bind].
  unfold count_names. rewrite count_names_last, Hc.
  cbn [length fold_left Z.add Z.of_nat Pos.of_succ_nat Z.eqb Pos.eqb andb].
  destruct (Z.eqb_spec (Z.of_nat (length (zip_namelist zipsource))) 1); [lia |].
  destruct (Z.ltb_spec 1 (Z.of_nat (length (zip_namelist zipsource)))); [| lia].
  reflexivity.
Qed.

(** X18: a detected archive without any member makes resolution raise the
    [ValueError] that speaks of an empty archive, not return [None]. *)
Theorem empty_archive_raises (w : World) (st source : Stream)
  (archive : bytes) (zipsource : ZipFile)
  (encoding internal_name : option text) (no_request : bool) :
  make_seekable w st = Ok source ->
  is_zipfile w source = Some archive ->
  zipfile_ZipFile w archive = Ok zipsource ->
  zip_namelist zipsource = [] ->
  resolve_stream w st encoding internal_name
  = Raise (ValueError (Literal EMPTY_ZIP))
  /\ open_stream w (source_stream st) encoding no_request
     = Raise (ValueError (Literal EMPTY_ZIP)).
Proof.
  intros Hs Hz Ho Hn.
  rewrite open_stream_of_stream. unfold resolve_stream.
  rewrite Hs. cbn [bind]. rewrite (unzip_empty w source Hz Ho Hn).
  split; reflexivity.
Qed.

Lemma empty_archive_raises_witness :
  open_stream
    (archive_world demo_world
       {| zip_namelist := []; zip_read := fun _ => Raise (OtherException "KeyError") |})
    (source_stream (Plain (io_BytesIO (bts "PK-empty")))) None false
  = Raise (ValueError (Literal EMPTY_ZIP)).
Proof.
  apply (@empty_archive_raises
           (archive_world demo_world
              {| zip_namelist := [];
                 zip_read := fun _ => Raise (OtherException "KeyError") |})
           (Plain (io_BytesIO (bts "PK-empty")))
           (Plain (io_BytesIO (bts "PK-empty")))
           (bts "PK-empty")
           {| zip_namelist := [];
              zip_read := fun _ => Raise (OtherException "KeyError") |}
           None None false); reflexivity.
Defined.

(** X19: in a detected archive with several members of which exactly one
    has a ".csv" extension (in any letter case), that member is the one
    read, wherever it stands in the list, and resolution goes on with an
    in-memory binary stream of its bytes. *)
Theorem single_csv_member_extracted (w : World) (st source : Stream)
  (archive : bytes) (zipsource : ZipFile) (member : text) (data : bytes)
  (encoding internal_name : option text) (no_request : bool) :
  make_seekable w st = Ok source ->
  is_zipfile w source = Some archive ->
  zipfile_ZipFile w archive = Ok zipsource ->
  1 < length (zip_namelist zipsource) ->
  csv_names w (zip_namelist zipsource) = [member] ->
  zip_read zipsource member = Ok data ->
  unzip w source = Ok (Plain (io_BytesIO data))
  /\ resolve_stream w st encoding internal_name
     = (s <- sample_and_wrap w (Plain (io_BytesIO data)) encoding internal_name ;;
        Ok (Some s))
  /\ open_stream w (source_stream st) encoding no_request
     = (s <- sample_and_wrap w (Plain (io_BytesIO data)) encoding None ;;
        Ok (Some s)).
Proof.
  intros Hs Hz Ho Hn Hc Hr.
  assert (Hu : unzip w source = Ok (Plain (io_BytesIO data))).
  { rewrite (unzip_one_csv w source Hz Ho Hn Hc), Hr. reflexivity. }
  split; [exact Hu |].
  split; [| rewrite open_stream_of_stream];
    unfold resolve_stream; rewrite Hs; cbn [bind]; rewrite Hu; reflexivity.
Qed.

Lemma single_csv_member_extracted_witness :
  exists s,
    open_stream
      (archive_world demo_world
         {| zip_namelist := [txt "readme.txt"; txt "Table.CSV"; txt "notes.md"];
            zip_read := fun n =>
              if text_eqb n (txt "Table.CSV") then Ok csv_bytes else Ok [] |})
      (source_stream (Plain (io_BytesIO (bts "PK-three")))) None false
    = Ok (Some s)
    /\ s = TextIOWrapper (set_pos (io_BytesIO csv_bytes) 8)
             (Some (txt "utf-8")) 0.
Proof.
  eexists. split; [| reflexivity].
  rewrite (proj2 (proj2
    (@single_csv_member_extracted
       (archive_world demo_world
          {| zip_namelist := [txt "readme.txt"; txt "Table.CSV"; txt "notes.md"];
             zip_read := fun n =>
               if text_eqb n (txt "Table.CSV") then Ok csv_bytes else Ok [] |})
       (Plain (io_BytesIO (bts "PK-three")))
       (Plain (io_BytesIO (bts "PK-three")))
       (bts "PK-three")
       {| zip_namelist := [txt "readme.txt"; txt "Table.CSV"; txt "notes.md"];
          zip_read := fun n =>
            if text_eqb n (txt "Table.CSV") then Ok csv_bytes else Ok [] |}
       (txt "Table.CSV") csv_bytes None None false
       eq_refl eq_refl eq_refl
       (le_n_S _ _ (le_n_S _ _ (le_0_n _))) eq_refl eq_refl))).
  reflexivity.
Defined.

(** ** Resolution: streams and bytes *)

Lemma resolve_text_stream (w : World) (r : RawStream) (t : text)
  (encoding : option text) :
  content r = CText t ->
  seekable r = true ->
  resolve_stream w (Plain r) encoding None
  = Ok (Some (Plain (set_pos r (N.min (size t) MAX_SAMPLE_CHUNKSIZE)))).
Proof.
  intros Hc Hs.
  unfold resolve_stream, make_seekable. cbn [stream_seekable]. rewrite Hs.
  cbn [bind]. unfold unzip, is_zipfile. rewrite Hc. cbn [bind].
  unfold sample_and_wrap. cbn [seek0 stream_read set_pos content pos].
  rewrite Hc, drop_0. cbn [upto bind set_buffer_name].
  rewrite size_take. reflexivity.
Qed.



(** X21: whatever stream enters, the stream that leaves the
    make-seekable step is seekable; a stream that already was is left as it
    is. *)
Theorem make_seekable_seekable (w : World) (st st' : Stream) :
  make_seekable w st = Ok st' ->
  stream_seekable st' = true
  /\ (stream_seekable st = true -> st' = st).
Proof.
  unfold make_seekable. intros H.
  destruct (stream_seekable st) eqn:Hs.
  - injection H as <-. split; [exact Hs | reflexivity].
  - split; [| discriminate].
    destruct (stream_read w st None) as [[data rest] | e]; [| discriminate H].
    cbn [bind] in H. destruct data; injection H as <-; reflexivity.
Qed.

Lemma make_seekable_seekable_witness :
  stream_seekable
    (Plain (io_BytesIO (bts "b")))
  = true
  /\ (stream_seekable
        (Plain {| content := CBytes (bts "a,b"); pos := 2; seekable := false;
                  name := None; name_writable := false |}) = true ->
      Plain (io_BytesIO (bts "b"))
      = Plain {| content := CBytes (bts "a,b"); pos := 2; seekable := false;
                 name := None; name_writable := false |}).
Proof.
  apply (@make_seekable_seekable demo_world
           (Plain {| content := CBytes (bts "a,b"); pos := 2; seekable := false;
                     name := None; name_writable := false |})
           (Plain (io_BytesIO (bts "b")))).
  reflexivity.
Defined.

(** X22: a text stream that is not seekable is replaced by an in-memory
    text stream holding exactly what had not been read yet: the part before
    the stream's position is not recovered, and the name is not carried
    over. *)
Theorem open_stream_unseekable_text (w : World) (r : RawStream) (t : text)
  (encoding : option text) (no_request : bool) :
  content r = CText t ->
  seekable r = false ->
  open_stream w (source_stream (Plain r)) encoding no_request
  = Ok (Some (Plain
               {| content := CText (drop t (pos r));
                  pos := N.min (size (drop t (pos r))) MAX_SAMPLE_CHUNKSIZE;
                  seekable := true; name := None; name_writable := true |})).
Proof.
  intros Hc Hs. rewrite open_stream_of_stream.
  unfold resolve_stream at 1, make_seekable. cbn [stream_seekable]. rewrite Hs.
  cbn [stream_read]. rewrite Hc. cbn [upto bind].
  change (unzip w (Plain (io_StringIO (drop t (pos r)) [LF])))
    with (@Ok Stream (Plain (io_StringIO (drop t (pos r)) [LF]))).
  cbn [bind].
  pose proof (@resolve_text_stream w (io_StringIO (drop t (pos r)) [LF])
                (drop t (pos r)) encoding eq_refl eq_refl) as H.
  unfold resolve_stream, make_seekable in H. cbn [stream_seekable] in H.
  change (seekable (io_StringIO (drop t (pos r)) [LF])) with true in H.
  cbn [bind] in H.
  change (unzip w (Plain (io_StringIO (drop t (pos r)) [LF])))
    with (@Ok Stream (Plain (io_StringIO (drop t (pos r)) [LF]))) in H.
  cbn [bind] in H. exact H.
Qed.

Lemma open_stream_unseekable_text_witness :
  open_stream demo_world
    (source_stream
       (Plain {| content := CText (txt "a;b;c"); pos := 2; seekable := false;
                 name := Some (txt "pipe"); name_writable := false |}))
    None false
  = Ok (Some (Plain {| content := CText (txt "b;c"); pos := 3;
                       seekable := true; name := None;
                       name_writable := true |})).
Proof.
  apply (@open_stream_unseekable_text demo_world
           {| content := CText (txt "a;b;c"); pos := 2; seekable := false;
              name := Some (txt "pipe"); name_writable := false |}
           (txt "a;b;c") None false); reflexivity.
Defined.



Lemma set_buffer_name_text (s : Stream) (internal_name : option text) :
  is_text_stream (set_buffer_name s internal_name) = is_text_stream s.
Proof.
  destruct internal_name, s as [r | b e cp]; cbn [set_buffer_name];
    try reflexivity.
  destruct (name_writable b); reflexivity.
Qed.

Lemma sample_and_wrap_text (w : World) (s st : Stream)
  (encoding internal_name : option text) :
  sample_and_wrap w s encoding internal_name = Ok st ->
  is_text_stream st = true.
Proof.
  unfold sample_and_wrap. intros H.
  destruct s as [r | b e cp]; cbn [seek0 stream_read set_pos content pos] in H.
  - destruct (content r) eqn:Hc; cbn [bind] in H.
    + injection H as <-. rewrite set_buffer_name_text. cbn. rewrite Hc. reflexivity.
    + unfold io_TextIOWrapper in H.
      match type of H with
      | context [negb ?k] => destruct k
      end; cbn [negb bind] in H; [| discriminate H].
      injection H as <-. rewrite set_buffer_name_text. reflexivity.
  - destruct (wrapped_text w (set_pos b 0) e) as [t | ex]; [| discriminate H].
    cbn [bind] in H. injection H as <-.
    rewrite set_buffer_name_text. reflexivity.
Qed.

Lemma resolve_stream_text (w : World) (s st : Stream)
  (encoding internal_name : option text) :
  resolve_stream w s encoding internal_name = Ok (Some st) ->
  is_text_stream st = true.
Proof.
  unfold resolve_stream. intros H.
  destruct (make_seekable w s) as [s1 | e]; [| discriminate H].
  cbn [bind] in H.
  destruct (unzip w s1) as [s2 | e]; [| discriminate H].
  cbn [bind] in H.
  destruct (sample_and_wrap w s2 encoding internal_name) as [s3 | e] eqn:Hs;
    [| discriminate H].
  cbn [bind] in H. injection H as <-.
  exact (sample_and_wrap_text _ _ _ _ Hs).
Qed.

(** X24: a stream returned by [open_stream] is always a text stream: an
    in-memory text stream, the caller's own text stream, or a text wrapper;
    a binary stream is never handed back. *)
Theorem open_stream_returns_text (w : World) (source : Source)
  (encoding : option text) (no_request : bool) (st : Stream) :
  open_stream w source encoding no_request = Ok (Some st) ->
  is_text_stream st = true.
Proof.
  unfold open_stream. intros H.
  destruct source as [| s | b | s |]; try discriminate H;
    try (exact (resolve_stream_text _ _ _ _ H)).
  destruct (str_contains [LF] s).
  { injection H as <-. unfold io_StringIO.
    destruct (str_contains CRLF s); reflexivity. }
  destruct (is_local w (Some s)) as [[p |] | e]; cbn [bind] in H;
    [| | discriminate H].
  { destruct (io_open_rb w p) as [f | e]; [| discriminate H].
    exact (resolve_stream_text _ _ _ _ H). }
  destruct (if no_request then Ok false else is_url w (Some s) false)
    as [[|] | e]; cbn [bind] in H; try discriminate H.
  destruct (requests w) as [rq |]; [| discriminate H].
  destruct (requests_get rq s) as [response | e]; [| discriminate H].
  cbn [bind] in H.
  destruct (response_ok response); cbn [negb] in H; [| discriminate H].
  match type of H with
  | context [bind ?r _] => destruct r as [src | e]
  end; [| discriminate H].
  exact (resolve_stream_text _ _ _ _ H).
Qed.

Lemma open_stream_returns_text_witness :
  open_stream demo_world (source_bytes csv_bytes) None false
  = Ok (Some (TextIOWrapper (set_pos (io_BytesIO csv_bytes) 8)
                (Some (txt "utf-8")) 0))
  /\ is_text_stream
       (TextIOWrapper (set_pos (io_BytesIO csv_bytes) 8) (Some (txt "utf-8")) 0)
     = true.
Proof.
  split; [reflexivity |].
  apply (@open_stream_returns_text demo_world (source_bytes csv_bytes)
           None false). reflexivity.
Defined.

(** ** Multi-slicing, continued *)

Lemma slice_indices_ok (sl : slice) (n : Z) :
  slice_step sl <> Some 0%Z ->
  exists start stop step, slice_indices sl n = Ok (start, stop, step).
Proof.
  intros H. unfold slice_indices.
  destruct (slice_step sl) as [st |].
  - destruct (Z.eqb_spec st 0) as [-> | _]; [congruence |].
    do 3 eexists; reflexivity.
  - do 3 eexists; reflexivity.
Qed.

Lemma getitem_ok {A} (sequence : list A) (sl : slice) :
  slice_step sl <> Some 0%Z -> exists r, getitem sequence sl = Ok r.
Proof.
  intros H. unfold getitem.
  destruct (slice_indices_ok sl (Z.of_nat (length sequence)) H)
    as (start & stop & step & ->).
  eexists; reflexivity.
Qed.

Lemma getitem_zero_step {A} (sequence : list A) (sl : slice) :
  slice_step sl = Some 0%Z ->
  getitem sequence sl = Raise (ValueError (Literal "slice step cannot be zero")).
Proof.
  intros H. unfold getitem, slice_indices. rewrite H. reflexivity.
Qed.

Lemma pick_in {A} (l : list A) (n : nat) (i step : Z) (x : A) :
  In x (pick l i step n) -> In x l.
Proof.
  revert i. induction n as [| n IH]; intros i; cbn [pick]; [intros [] |].
  destruct (nth_error l (Z.to_nat i)) as [y |] eqn:E; [| intros []].
  intros [<- | Hin]; [exact (nth_error_In _ _ E) | exact (IH _ Hin)].
Qed.

Lemma getitem_in {A} (sequence r : list A) (sl : slice) (x : A) :
  getitem sequence sl = Ok r -> In x r -> In x sequence.
Proof.
  unfold getitem.
  destruct (slice_indices sl (Z.of_nat (length sequence)))
    as [[[start stop] step] | e]; [| discriminate].
  cbn [bind]. intros H. injection H as <-. apply pick_in.
Qed.

(** X25: slicing by a list that is the concatenation of two lists is
    slicing by the first and then slicing the result by the second; a
    fault in the first part is the fault of the whole. *)
Theorem multislice_sequence_app (A : Type) (sequence : list A)
  (first second : list slice) :
  multislice_sequence sequence (Some (first ++ second))
  = (s <- multislice_sequence sequence (Some first) ;;
     multislice_sequence s (Some second)).
Proof.
  cbn [multislice_sequence]. revert sequence.
  induction first as [| sl first IH]; intros sequence; [reflexivity |].
  cbn [app apply_slices].
  destruct (getitem sequence sl) as [s |]; cbn [bind]; [apply IH | reflexivity].
Qed.

(** X26: whatever the slices, every element of the result is an element of
    the sequence that was given: slicing selects, it never makes up
    elements. *)
Theorem multislice_sequence_elements (A : Type) (sequence r : list A)
  (slice_list : option (list slice)) (x : A) :
  multislice_sequence sequence slice_list = Ok r ->
  In x r -> In x sequence.
Proof.
  destruct slice_list as [l |]; cbn [multislice_sequence];
    [| intros H; injection H as <-; auto].
  revert sequence. induction l as [| sl l IH]; intros sequence;
    cbn [apply_slices]; [intros H; injection H as <-; auto |].
  destruct (getitem sequence sl) as [s |] eqn:E; cbn [bind]; [| discriminate].
  intros H Hin. exact (getitem_in _ _ _ E (IH _ H Hin)).
Qed.

Lemma multislice_sequence_elements_witness :
  multislice_sequence [0; 1; 2; 3; 4; 5]%Z
    (Some [mk_slice None None (Some (-2)%Z); slice2 0 2]) = Ok [5; 3]%Z
  /\ In 3%Z [0; 1; 2; 3; 4; 5]%Z.
Proof.
  split; [reflexivity |].
  apply (@multislice_sequence_elements Z [0; 1; 2; 3; 4; 5]%Z [5; 3]%Z
           (Some [mk_slice None None (Some (-2)%Z); slice2 0 2]) 3%Z).
  - reflexivity.
  - right. left. reflexivity.
Defined.

(** X27: multi-slicing succeeds exactly when no slice of the list has step
    0; bounds of any size and sign never make it fail. *)
Theorem multislice_sequence_succeeds (A : Type) (sequence : list A)
  (slice_list : list slice) :
  (exists r, multislice_sequence sequence (Some slice_list) = Ok r)
  <-> Forall (fun sl => slice_step sl <> Some 0%Z) slice_list.
Proof.
  cbn [multislice_sequence]. revert sequence.
  induction slice_list as [| sl l IH]; intros sequence; cbn [apply_slices].
  - split; [constructor | eexists; reflexivity].
  - split.
    + intros [r H].
      destruct (getitem sequence sl) as [s |] eqn:E; [| discriminate H].
      cbn [bind] in H. constructor.
      * intros Hz. rewrite (getitem_zero_step sequence sl Hz) in E. discriminate E.
      * apply (IH s). exists r. exact H.
    + intros H. inversion H as [| ? ? Hsl Hl]; subst.
      destruct (getitem_ok sequence sl Hsl) as [s ->]. cbn [bind].
      apply IH. exact Hl.
Qed.

Lemma skipn_step {A} (l : list A) (k : nat) :
  skipn k l = match nth_error l k with
              | Some x => x :: skipn (S k) l
              | None => []
              end.
Proof.
  revert k. induction l as [| x l IHl]; intros k.
  - destruct k; reflexivity.
  - destruct k as [| k]; [reflexivity |].
    change (skipn (S k) (x :: l)) with (skipn k l).
    change (skipn (S (S k)) (x :: l)) with (skipn (S k) l).
    change (nth_error (x :: l) (S k)) with (nth_error l k).
    apply IHl.
Qed.

Lemma pick_firstn_skipn {A} (l : list A) (n k : nat) :
  pick l (Z.of_nat k) 1 n = firstn n (skipn k l).
Proof.
  revert k. induction n as [| n IH]; intros k; [reflexivity |].
  cbn [pick]. rewrite Nat2Z.id.
  replace (Z.of_nat k + 1)%Z with (Z.of_nat (S k)) by lia.
  rewrite IH, (skipn_step l k).
  destruct (nth_error l k); reflexivity.
Qed.

(** X28: for bounds 0 <= a and 0 <= b, [sequence[a:b]] is what remains of
    the first [b] elements after dropping [a] of them, also when a bound
    lies beyond the end or when [b < a] (the empty sequence). *)
Theorem getitem_prefix_slice (A : Type) (sequence : list A) (a b : nat) :
  getitem sequence (slice2 (Z.of_nat a) (Z.of_nat b))
  = Ok (firstn (b - a) (skipn a sequence)).
Proof.
  unfold getitem, slice_indices, slice2.
  cbn [slice_step slice_start slice_stop Z.eqb Z.ltb Z.compare bind].
  destruct (Z.ltb_spec (Z.of_nat a) 0); [lia |].
  destruct (Z.ltb_spec (Z.of_nat b) 0); [lia |].
  f_equal. unfold range_length. cbn [Z.ltb Z.compare].
  set (n := length sequence).
  replace (Z.min (Z.of_nat a) (Z.of_nat n)) with (Z.of_nat (Nat.min a n)) by lia.
  replace (Z.min (Z.of_nat b) (Z.of_nat n)) with (Z.of_nat (Nat.min b n)) by lia.
  assert (Hlen : length (skipn a sequence) = n - a) by apply length_skipn.
  destruct (Z.ltb_spec (Z.of_nat (Nat.min a n)) (Z.of_nat (Nat.min b n))).
  - rewrite Z.div_1_r.
    replace (Z.to_nat (Z.of_nat (Nat.min b n) - Z.of_nat (Nat.min a n) - 1 + 1))
      with (Nat.min b n - Nat.min a n) by lia.
    rewrite pick_firstn_skipn.
    replace (Nat.min a n) with a by lia.
    destruct (Nat.le_gt_cases b n).
    + replace (Nat.min b n) with b by lia. reflexivity.
    + replace (Nat.min b n) with n by lia.
      rewrite !firstn_all2 by lia. reflexivity.
  - cbn [pick].
    destruct (Nat.le_gt_cases b a).
    + replace (b - a) with 0 by lia. reflexivity.
    + rewrite skipn_all2 by lia. destruct (b - a); reflexivity.
Qed.

(** ** Comment stripping *)

Lemma rstrip_visible (c : codepoint) (l : text) :
  is_space c = false -> exists rest, rstrip (c :: l) = c :: rest.
Proof.
  intros H. cbn [rstrip]. rewrite H.
  destruct (rstrip l); eexists; reflexivity.
Qed.

Lemma strip_first_visible (line : text) :
  match first_visible line with
  | Some c => exists rest, strip line = c :: rest
  | None => strip line = []
  end.
Proof.
  unfold strip. induction line as [| c line IH]; [reflexivity |].
  cbn [first_visible lstrip].
  destruct (is_space c) eqn:E; [exact IH |].
  apply rstrip_visible. exact E.
Qed.

Lemma str_contains_char (c : codepoint) (chars : text) :
  str_contains [c] chars = existsb (N.eqb c) chars.
Proof.
  induction chars as [| x chars IH]; [reflexivity |].
  cbn [str_contains is_prefix existsb]. rewrite andb_true_r, IH. reflexivity.
Qed.

Lemma comment_stripper_filter (lines : list text) (comment_line_chars : text) :
  comment_stripper lines comment_line_chars
  = filter (is_content_line comment_line_chars) lines.
Proof.
  induction lines as [| line lines IH]; [reflexivity |].
  cbn [comment_stripper filter]. unfold is_content_line at 1.
  pose proof (strip_first_visible line) as H.
  destruct (first_visible line) as [c |].
  - destruct H as [rest ->]. cbn [firstn].
    rewrite str_contains_char, IH.
    destruct (existsb (N.eqb c) comment_line_chars); reflexivity.
  - rewrite H. exact IH.
Qed.

(** X29: the generator yields, in their order and unchanged (white space
    and line end included), exactly the lines whose first character that
    is not white space exists and is not one of the comment characters;
    blank lines and comment lines are dropped, whatever their
    indentation. *)
Theorem comment_stripper_yields (lines : list text)
  (comment_line_chars : text) :
  comment_stripper lines comment_line_chars
  = filter (is_content_line comment_line_chars) lines
  /\ forall line,
       In line (comment_stripper lines comment_line_chars)
       <-> In line lines
           /\ exists c, first_visible line = Some c
                        /\ ~ In c comment_line_chars.
Proof.
  split; [apply comment_stripper_filter |].
  intros line. rewrite comment_stripper_filter, filter_In.
  unfold is_content_line.
  split; intros [Hin H]; (split; [exact Hin |]).
  - destruct (first_visible line) as [c |]; [| discriminate H].
    exists c. split; [reflexivity |].
    intros Hc. apply negb_true_iff in H.
    assert (existsb (N.eqb c) comment_line_chars = true); [| congruence].
    apply existsb_exists. exists c. split; [exact Hc | apply N.eqb_refl].
  - destruct H as (c & -> & Hc). apply negb_true_iff.
    destruct (existsb (N.eqb c) comment_line_chars) eqn:E; [| reflexivity].
    apply existsb_exists in E as (x & Hx & Ex).
    apply N.eqb_eq in Ex. subst x. contradiction.
Qed.

Example comment_stripper_run :
  comment_stripper
    [txt "# header" ++ [LF]; [LF]; txt "a,b" ++ [LF];
     [32%N; 9%N] ++ txt "; note" ++ [LF]; txt "  1,2 # kept" ++ [LF]]
    COMMENT_LINE_CHARS
  = [txt "a,b" ++ [LF]; txt "  1,2 # kept" ++ [LF]].
Proof. reflexivity. Qed.

(** Stripping is idempotent: the lines the generator yields are
    yielded again, all of them, when they are stripped a second time with
    the same comment characters. *)
Theorem comment_stripper_idempotent (lines : list text)
  (comment_line_chars : text) :
  comment_stripper (comment_stripper lines comment_line_chars)
    comment_line_chars
  = comment_stripper lines comment_line_chars.
Proof.
  rewrite !comment_stripper_filter.
  induction lines as [| line lines IH]; [reflexivity |].
  cbn [filter].
  destruct (is_content_line comment_line_chars line) eqn:E; [| exact IH].
  cbn [filter]. rewrite E, IH. reflexivity.
Qed.

(** ** Resolution: local files *)


